(** * Face-attendance core: matcher, recognition loop and enrollment gate

    A shallow embedding of
      - [src/lib/faceApi.ts]           (euclideanDistance, findBestMatch),
      - the LiveAttendance page        (detectAndMatch, markAttendance),
      - [src/pages/FaceRegistration.tsx] (handleSubmit),
    followed by the properties of the system description that concern them.

    Numbers.  The source computes on IEEE doubles read from [Float32Array]s.
    Here a JavaScript number is either a real (exact arithmetic, no rounding,
    no infinities) or [NaN]; [NaN] is kept because the source can produce it
    without any rounding at all, by reading an array past its end. *)

From Stdlib Require Import Reals Lra ZArith Lia.
From stdpp Require Import gmap strings list.

(** ** JavaScript numbers, idealised *)

Module JsNum.

Inductive number : Type :=
| NaN
| Fin (x : R).

(** [a + b] *)
Definition add (a b : number) : number :=
  match a, b with
  | Fin x, Fin y => Fin (x + y)
  | _, _ => NaN
  end.

(** [a - b] *)
Definition sub (a b : number) : number :=
  match a, b with
  | Fin x, Fin y => Fin (x - y)
  | _, _ => NaN
  end.

(** [a * b] *)
Definition mul (a b : number) : number :=
  match a, b with
  | Fin x, Fin y => Fin (x * y)
  | _, _ => NaN
  end.

(** [Math.pow(a, 2)] *)
Definition pow2 (a : number) : number :=
  match a with
  | Fin x => Fin (x ^ 2)
  | NaN => NaN
  end.

(** [Math.sqrt(a)]: [NaN] on a negative argument. *)
Definition sqrt (a : number) : number :=
  match a with
  | Fin x => if Rlt_dec x 0 then NaN else Fin (R_sqrt.sqrt x)
  | NaN => NaN
  end.

(** [a < b]: false as soon as one side is [NaN]. *)
Definition lt (a b : number) : bool :=
  match a, b with
  | Fin x, Fin y => if Rlt_dec x y then true else false
  | _, _ => false
  end.

(** [Math.round(a)]: the nearest integer, a tie going up. *)
Definition round (a : number) : number :=
  match a with
  | Fin x => Fin (IZR (Int_part (x + / 2)))
  | NaN => NaN
  end.

(** [arr[i]] used as an operand: a read past the end gives [undefined],
    which arithmetic turns into [NaN]. *)
Definition get (arr : list R) (i : nat) : number :=
  match arr !! i with
  | Some x => Fin x
  | None => NaN
  end.

End JsNum.

(** ** src/lib/faceApi.ts *)

Module FaceApi.
Import JsNum.

(** An embedding: the contents of a [Float32Array] (or of the [number[]]
    it was saved as). *)
Abbreviation Descriptor := (list R).

(** The loop body: [sum += Math.pow(arr1[i] - arr2[i], 2)]. *)
Definition accumulate (arr1 arr2 : Descriptor) (sum : number) (i : nat)
    : number :=
  add sum (pow2 (sub (get arr1 i) (get arr2 i))).

(** [let sum = 0; for (let i = 0; i < arr1.length; i++) ...;
     return Math.sqrt(sum);]
    The loop is driven by the length of [arr1] alone. *)
Definition euclideanDistance (arr1 arr2 : Descriptor) : number :=
  sqrt (fold_left (accumulate arr1 arr2) (seq 0 (length arr1)) (Fin 0)).

(** One element of [storedDescriptors]. *)
Record StoredFace : Type := mkStoredFace {
  employeeId : string;
  descriptors : list Descriptor
}.

(** The value of [bestMatch] when it is not [null]. *)
Record Match : Type := mkMatch {
  matchEmployeeId : string;
  distance : number
}.

(** Body of the inner loop: compute the distance and replace the running
    best when there is none yet or the new distance is strictly smaller. *)
Definition consider (descriptor : Descriptor) (id : string)
    (bestMatch : option Match) (storedDesc : Descriptor) : option Match :=
  let d := euclideanDistance descriptor storedDesc in
  match bestMatch with
  | None => Some (mkMatch id d)
  | Some b => if lt d (distance b) then Some (mkMatch id d) else bestMatch
  end.

(** The two nested [for ... of] loops, starting from [bestMatch = null]. *)
Definition findBestMatch (descriptor : Descriptor)
    (storedDescriptors : list StoredFace) : option Match :=
  fold_left
    (fun bestMatch stored =>
       fold_left (consider descriptor (employeeId stored))
                 (descriptors stored) bestMatch)
    storedDescriptors None.

(** The (identity, embedding) pairs of a reference set, in the order the
    loops visit them. *)
Definition pairs (storedDescriptors : list StoredFace)
    : list (string * Descriptor) :=
  flat_map (fun stored => map (pair (employeeId stored)) (descriptors stored))
           storedDescriptors.

(** Every stored embedding has the length of the live one (the data model's
    fixed-length embeddings). *)
Definition sameLength (descriptor : Descriptor)
    (storedDescriptors : list StoredFace) : Prop :=
  Forall (fun p => length (snd p) = length descriptor) (pairs storedDescriptors).

(** Order on numbers, for stating minimality. *)
Definition le (a b : number) : Prop :=
  match a, b with
  | Fin x, Fin y => (x <= y)%R
  | _, _ => False
  end.

Definition lt_strict (a b : number) : Prop :=
  match a, b with
  | Fin x, Fin y => (x < y)%R
  | _, _ => False
  end.

(** The sum the loop of [euclideanDistance] accumulates, written by
    recursion on the two arrays; used to reason about the loop. *)
Fixpoint sumSquares (arr1 arr2 : Descriptor) : R :=
  match arr1, arr2 with
  | x :: arr1, y :: arr2 => ((x - y) ^ 2 + sumSquares arr1 arr2)%R
  | _, _ => 0%R
  end.

(** The pairs visited one after the other, as a single loop. *)
Definition scan (descriptor : Descriptor) (l : list (string * Descriptor))
    (bestMatch : option Match) : option Match :=
  fold_left (fun best p => consider descriptor (fst p) best (snd p))
            l bestMatch.

(** [m] is the pair of [l] at the least distance from [descriptor], and the
    first such pair in the order of [l]. *)
Definition firstMinimum (descriptor : Descriptor)
    (l : list (string * Descriptor)) (m : Match) : Prop :=
  exists (i : nat) (e : Descriptor),
    l !! i = Some (matchEmployeeId m, e) /\
    euclideanDistance descriptor e = distance m /\
    (forall j p, l !! j = Some p ->
                 le (distance m) (euclideanDistance descriptor (snd p))) /\
    (forall j p, (j < i)%nat -> l !! j = Some p ->
                 lt_strict (distance m) (euclideanDistance descriptor (snd p))).

End FaceApi.

(** ** The LiveAttendance page *)

(** Local wall-clock time.  A [Date] is its number of milliseconds on the
    local clock, taken as one linear axis (no daylight-saving jumps). *)
Module LocalTime.

Definition MS_PER_DAY : Z := 86400000.

(** Milliseconds from local midnight to 09:00:00.000. *)
Definition NINE_AM : Z := 9 * 3600000.

(** The calendar day of a date ([format(d, 'yyyy-MM-dd')], as a number). *)
Definition day (t : Z) : Z := t / MS_PER_DAY.

(** Milliseconds since local midnight. *)
Definition timeOfDay (t : Z) : Z := t mod MS_PER_DAY.

(** [d.setHours(9, 0, 0, 0)]: same calendar day, 09:00:00.000. *)
Definition setHours9 (t : Z) : Z := day t * MS_PER_DAY + NINE_AM.

(** [h:m:s] on day [d]. *)
Definition at_ (d h m s : Z) : Z :=
  d * MS_PER_DAY + ((h * 60 + m) * 60 + s) * 1000.

End LocalTime.

(** Rows of the external [attendance] table. *)
Module Attendance.

Inductive Status : Type := present | late.

Record Row : Type := mkRow {
  employee_id : string;
  check_in_time : Z;
  date : Z;
  confidence_score : JsNum.number;
  status : Status
}.

End Attendance.

Module LiveAttendance.
Import JsNum FaceApi LocalTime.

Record Employee : Type := mkEmployee {
  id : string;
  name : string;
  employee_id : string;
  department : string
}.

Definition MATCH_THRESHOLD : number := Fin (/ 2).

(** Everything that outlives one call of [detectAndMatch]: the component's
    React state, its refs, and the outside collaborators. *)
Record World : Type := mkWorld {
  (* useState *)
  faceDetected : bool;
  isProcessing : bool;
  lastMatch : option (Employee * number);
  recentAttendance : list (Employee * Z * number);
  stateMarkedToday : gset string;
  stateStoredFaces : list StoredFace;
  stateEmployees : gmap string Employee;
  (* useRef *)
  processLock : bool;
  (* pending [setTimeout] callbacks *)
  timers : nat;
  (* the attendance table: every insert issued, and the rows it holds *)
  insertCalls : list Attendance.Row;
  attendance : list Attendance.Row;
  (* toast titles, newest first *)
  toasts : list string
}.

(** What one [detectAndMatch] function value has captured.  The three
    names are [const]s of the render that created the function
    ([useCallback(..., [storedFaces, employees, markedToday])]); the state
    setters never assign to them. *)
Record Closure : Type := mkClosure {
  storedFaces : list StoredFace;
  employees : gmap string Employee;
  markedToday : gset string
}.

(** The [detectAndMatch] of the current render, the one [startCamera]
    calls. *)
Definition render (w : World) : Closure :=
  mkClosure (stateStoredFaces w) (stateEmployees w) (stateMarkedToday w).

(** What the outside supplies to one run of [detectAndMatch]. *)
Record Frame : Type := mkFrame {
  (* both early exits passed: the video and canvas refs are set, [ctx] is
   obtained and [video.readyState === 4] *)
  ready : bool;
  (* result of [await detectFace(video)]: the descriptor, if a face *)
  detection : option Descriptor;
  (* the two [new Date()] of markAttendance, in order *)
  clockNow : Z;
  clockWorkStart : Z;
  (* [error] returned by the insert is set *)
  insertError : bool
}.

Inductive Event : Type :=
| Tick (f : Frame)   (* the animation frame fires: detectAndMatch runs *)
| Cooldown.          (* a 500 ms timer fires *)

(** [now > workStartTime ? 'late' : 'present'] *)
Definition statusAt (now workStartTime : Z) : Attendance.Status :=
  if (now >? workStartTime)%Z then Attendance.late else Attendance.present.

(** The object handed to [supabase.from('attendance').insert]. *)
Definition checkIn (employee : Employee) (confidence : number)
    (now workStart : Z) : Attendance.Row :=
  Attendance.mkRow (id employee) now (day now) confidence
                   (statusAt now (setHours9 workStart)).

(** [Math.round((1 - match.distance) * 100)] *)
Definition confidenceOf (d : number) : number :=
  round (mul (sub (Fin 1) d) (Fin 100)).

Definition markAttendance (employee : Employee) (confidence : number)
    (f : Frame) (w : World) : World :=
  let now := clockNow f in
  let row := checkIn employee confidence now (clockWorkStart f) in
  if insertError f then
    (* [if (error) throw error] -> catch -> finally *)
    mkWorld (faceDetected w) false (lastMatch w) (recentAttendance w)
            (stateMarkedToday w) (stateStoredFaces w) (stateEmployees w)
            (processLock w) (timers w)
            (insertCalls w ++ [row]) (attendance w)
            ("Error" :: toasts w)
  else
    mkWorld (faceDetected w) false (lastMatch w)
            ((employee, now, confidence) :: take 9 (recentAttendance w))
            (stateMarkedToday w ∪ {[ id employee ]})
            (stateStoredFaces w) (stateEmployees w)
            (processLock w) (timers w)
            (insertCalls w ++ [row]) (attendance w ++ [row])
            ("Attendance Marked!" :: toasts w).

Definition setFaceDetected (b : bool) (w : World) : World :=
  mkWorld b (isProcessing w) (lastMatch w) (recentAttendance w)
          (stateMarkedToday w) (stateStoredFaces w) (stateEmployees w)
          (processLock w) (timers w) (insertCalls w) (attendance w) (toasts w).

Definition setLastMatch (m : option (Employee * number)) (w : World) : World :=
  mkWorld (faceDetected w) (isProcessing w) m (recentAttendance w)
          (stateMarkedToday w) (stateStoredFaces w) (stateEmployees w)
          (processLock w) (timers w) (insertCalls w) (attendance w) (toasts w).

Definition setProcessLock (b : bool) (w : World) : World :=
  mkWorld (faceDetected w) (isProcessing w) (lastMatch w) (recentAttendance w)
          (stateMarkedToday w) (stateStoredFaces w) (stateEmployees w)
          b (timers w) (insertCalls w) (attendance w) (toasts w).

(** [setTimeout(() => { processLockRef.current = false }, 500)] *)
Definition setTimeout500 (w : World) : World :=
  mkWorld (faceDetected w) (isProcessing w) (lastMatch w) (recentAttendance w)
          (stateMarkedToday w) (stateStoredFaces w) (stateEmployees w)
          (processLock w) (S (timers w)) (insertCalls w) (attendance w)
          (toasts w).

(** The branch taken once the lock is held: match, threshold, employee
    lookup, the "already marked" guard, then the check-in. *)
Definition matchAndMark (c : Closure) (descriptor : Descriptor) (f : Frame)
    (w : World) : World :=
  match findBestMatch descriptor (storedFaces c) with
  | Some m =>
      if lt (distance m) MATCH_THRESHOLD then
        match employees c !! matchEmployeeId m with
        | Some employee =>
            let confidence := confidenceOf (distance m) in
            let w := setLastMatch (Some (employee, confidence)) w in
            if decide (id employee ∈ markedToday c) then w
            else markAttendance employee confidence f w
        | None => w
        end
      else setLastMatch None w
  | None => setLastMatch None w
  end.

(** One run of [detectAndMatch] as the closure [c].  Its last statement,
    [requestAnimationFrame(detectAndMatch)], names the function of its own
    render, so the next run is again [c]: the guard below keeps reading
    [markedToday c], while [setMarkedToday] inside [markAttendance] only
    changes the state that a later render would capture. *)
Definition detectAndMatch (c : Closure) (f : Frame) (w : World) : World :=
  if ready f then
    match detection f with
    | Some descriptor =>
        let w := setFaceDetected true w in
        if negb (processLock w) && (0 <? length (storedFaces c))%nat then
          setTimeout500 (matchAndMark c descriptor f (setProcessLock true w))
        else w
    | None => setLastMatch None (setFaceDetected false w)
    end
  else w.

(** The timer callback; it can only run when one is pending. *)
Definition cooldown (w : World) : World :=
  match timers w with
  | O => w
  | S n =>
      mkWorld (faceDetected w) (isProcessing w) (lastMatch w)
              (recentAttendance w) (stateMarkedToday w) (stateStoredFaces w)
              (stateEmployees w) false n (insertCalls w) (attendance w)
              (toasts w)
  end.

Definition react (c : Closure) (w : World) (e : Event) : World :=
  match e with
  | Tick f => detectAndMatch c f w
  | Cooldown => cooldown w
  end.

(** Runs of the loop function as a step relation: the function is a fixed
    closure [c], the world moves.  A [Tick] is a run that is given to
    happen; whether the page ever makes one is the matter of
    [AttendancePage.pageStep] below. *)
Inductive step (c : Closure) : World -> Event -> World -> Prop :=
| step_tick w f : step c w (Tick f) (detectAndMatch c f w)
| step_cooldown w : (0 < timers w)%nat -> step c w Cooldown (cooldown w).

Inductive steps (c : Closure) : World -> list Event -> World -> Prop :=
| steps_nil w : steps c w [] w
| steps_cons w e w' es w'' :
    step c w e w' -> steps c w' es w'' -> steps c w (e :: es) w''.

(** Running the loop on a list of events. *)
Definition run (c : Closure) (w : World) (es : list Event) : World :=
  fold_left (react c) es w.

End LiveAttendance.

(** ** src/pages/FaceRegistration.tsx *)

Module FaceRegistration.
Import FaceApi.

Definition REQUIRED_CAPTURES : nat := 5.

Record FormData : Type := mkFormData {
  name : string;
  employeeId : string;
  department : string;
  email : string;
  phone : string
}.

(** The enrollment session as [handleSubmit] sees it. *)
Record Session : Type := mkSession {
  capturedDescriptors : list Descriptor;
  formData : FormData
}.

(** Answers of the collaborators to the calls [handleSubmit] may make. *)
Record Replies : Type := mkReplies {
  (* the uniqueness query returned a row *)
  existing : bool;
  (* the insert returned this employee id, or an error *)
  inserted : option string;
  (* saveFaceEncoding rejected *)
  saveFailed : bool
}.

(** What [handleSubmit] does to the outside, in order. *)
Inductive Effect : Type :=
| PreventDefault
| Toast (title : string)
| SetIsProcessing (b : bool)
| SelectEmployee (employee_id : string)
| InsertEmployee (name employee_id department : string)
                 (email phone : option string)
| SaveFaceEncoding (employeeId : string) (descriptors : list Descriptor)
| ConsoleError
| StopCamera
| Navigate (path : string).

(** JavaScript truthiness of a string. *)
Definition truthy (s : string) : bool := negb (String.eqb s "").

(** [s || null] *)
Definition orNull (s : string) : option string :=
  if truthy s then Some s else None.

(** The [catch] block followed by [finally]. *)
Definition failed : list Effect :=
  [ConsoleError; Toast "Registration failed"; SetIsProcessing false].

Definition handleSubmit (s : Session) (r : Replies) : list Effect :=
  let fd := formData s in
  PreventDefault ::
  if (length (capturedDescriptors s) <? REQUIRED_CAPTURES)%nat then
    [Toast "Insufficient captures"]
  else if negb (truthy (name fd)) || negb (truthy (employeeId fd))
          || negb (truthy (department fd)) then
    [Toast "Missing information"]
  else
    SetIsProcessing true ::
    SelectEmployee (employeeId fd) ::
    if existing r then
      [Toast "Employee ID exists"; SetIsProcessing false; SetIsProcessing false]
    else
      InsertEmployee (name fd) (employeeId fd) (department fd)
                     (orNull (email fd)) (orNull (phone fd)) ::
      match inserted r with
      | None => failed
      | Some employee_id =>
          SaveFaceEncoding employee_id (capturedDescriptors s) ::
          if saveFailed r then failed
          else [Toast "Registration successful!"; StopCamera;
                Navigate "/employees"; SetIsProcessing false]
      end.

(** The effects that reach the employee store or the face-encoding store. *)
Definition touchesStore (e : Effect) : bool :=
  match e with
  | SelectEmployee _ | InsertEmployee _ _ _ _ _ | SaveFaceEncoding _ _ => true
  | _ => false
  end.

End FaceRegistration.

(** ** A small scenario

    One enrolled employee, nobody marked yet, and the same face seen on two
    frames half a second apart. *)

Module Scenario.
Import JsNum FaceApi LocalTime LiveAttendance.

Definition alice : Employee := mkEmployee "E1" "Alice" "A-001" "IT".

Definition enrolled : list StoredFace := [mkStoredFace "E1" [[0%R]]].

(** The component once [initializeAttendance] has finished, camera off. *)
Definition start : World :=
  mkWorld false false None [] ∅ enrolled {[ "E1" := alice ]}
          false 0 [] [] [].

(** A frame showing the enrolled face at local time [t]; the insert
    succeeds. *)
Definition seen (t : Z) : Frame := mkFrame true (Some [0%R]) t t false.

(** The same, with the insert failing. *)
Definition seenInsertFails (t : Z) : Frame :=
  mkFrame true (Some [0%R]) t t true.

Definition twice : list Event :=
  [Tick (seen (at_ 0 8 0 0)); Cooldown; Tick (seen (at_ 0 8 0 1))].

(** A reference set with a tie at the least distance from [probe], and an
    identity without any descriptor. *)
Definition probe : Descriptor := [0%R].

Definition gallery : list StoredFace :=
  [mkStoredFace "A" [[2%R]; [1%R]]; mkStoredFace "B" [[1%R]];
   mkStoredFace "C" []].

(** Two identities enrolled with the very same embedding. *)
Definition twins : list StoredFace :=
  [mkStoredFace "Y" [[0%R]]; mkStoredFace "X" [[0%R]]].

(** Four captures, one short of the quota, with a valid form. *)
Definition fourCaptures : FaceRegistration.Session :=
  FaceRegistration.mkSession
    [[0%R]; [0%R]; [0%R]; [0%R]]
    (FaceRegistration.mkFormData "Alice" "A-001" "IT" "" "").

Definition allGood : FaceRegistration.Replies :=
  FaceRegistration.mkReplies false (Some "E1") false.

End Scenario.

From stdpp Require Import sorting.

(** ** src/lib/faceApi.ts: loading the models *)

Module ModelLoader.

(** The module variable [modelsLoaded], the calls of [loadFaceApiModels]
    whose [Promise.all] has not settled yet, and the number of times the
    three nets have been requested from the network. *)
Record State : Type := mkState {
  modelsLoaded : bool;
  inFlight : nat;
  loads : nat
}.

Inductive Event : Type :=
| Call                 (* loadFaceApiModels() is called and runs to its await *)
| Settle (ok : bool).  (* the Promise.all of a pending call settles *)

(** [if (modelsLoaded) return;] then the three [loadFromUri]. *)
Definition call (st : State) : State :=
  if modelsLoaded st then st
  else mkState (modelsLoaded st) (S (inFlight st)) (S (loads st)).

(** After the await: [modelsLoaded = true], unless the load rejected. *)
Definition settle (ok : bool) (st : State) : State :=
  match inFlight st with
  | O => st
  | S n => mkState (if ok then true else modelsLoaded st) n (loads st)
  end.

Definition react (st : State) (e : Event) : State :=
  match e with
  | Call => call st
  | Settle ok => settle ok st
  end.

Definition run (st : State) (es : list Event) : State := fold_left react es st.

End ModelLoader.

(** ** The face-encoding store (IndexedDB, object store [faceEncodings]) *)

Module IndexedDb.
Import FaceApi.

Record FaceEncoding : Type := mkFaceEncoding {
  id : string;
  employeeId : string;
  descriptors : list Descriptor;
  createdAt : Z
}.

(** The object store: one record per key. *)
Abbreviation Store := (gmap string FaceEncoding).

(** The store has [keyPath: 'id']: a record is filed under its own [id]. *)
Definition wf (db : Store) : Prop :=
  forall k r, db !! k = Some r -> id r = k.

(** Key order of the object store. *)
Definition keyLe (a b : FaceEncoding) : Prop := String.leb (id a) (id b) = true.

#[global] Instance keyLe_dec : RelDecision keyLe.
Proof. intros a b. unfold keyLe. apply _. Defined.

(** [db.put('faceEncodings', r)] *)
Definition put (r : FaceEncoding) (db : Store) : Store := <[ id r := r ]> db.

(** [db.getAll('faceEncodings')]: the records in ascending key order. *)
Definition getAll (db : Store) : list FaceEncoding :=
  merge_sort keyLe (map_to_list db).*2.

(** [db.getAllFromIndex('faceEncodings', 'by-employee', e)] *)
Definition getAllFromIndex (e : string) (db : Store) : list FaceEncoding :=
  filter (fun r => employeeId r = e) (getAll db).

(** [saveFaceEncoding]: [uuid] is the value of [crypto.randomUUID()], [now]
    that of [new Date()]; [Array.from] keeps the numbers. *)
Definition saveFaceEncoding (uuid : string) (now : Z) (employee : string)
    (ds : list Descriptor) (db : Store) : Store * string :=
  (put (mkFaceEncoding uuid employee ds now) db, uuid).

Definition getFaceEncodings (db : Store) : list FaceEncoding := getAll db.

(** [encodings[0]] *)
Definition getFaceEncodingByEmployee (e : string) (db : Store)
    : option FaceEncoding :=
  head (getAllFromIndex e db).

(** [for (const encoding of encodings) await db.delete('faceEncodings', encoding.id)] *)
Definition deleteFaceEncoding (e : string) (db : Store) : Store :=
  fold_left (fun db encoding => delete (id encoding) db)
            (getAllFromIndex e db) db.

(** [db.clear('faceEncodings')] *)
Definition clearAllFaceEncodings (db : Store) : Store := ∅.

(** What LiveAttendance keeps of an encoding:
    [encodings.map((e) => ({ employeeId: e.employeeId, descriptors: e.descriptors }))] *)
Definition toStoredFace (e : FaceEncoding) : StoredFace :=
  mkStoredFace (employeeId e) (descriptors e).

End IndexedDb.

(** ** LiveAttendance: [initializeAttendance] *)

Module Startup.
Import JsNum FaceApi LocalTime LiveAttendance.

(** The component as its [useState] and [useRef] calls create it, beside an
    attendance table that already holds [rows]. *)
Definition mounted (rows : list Attendance.Row) : World :=
  mkWorld false false None [] ∅ [] ∅ false 0 [] rows [].

(** What the collaborators answer during [initializeAttendance]. *)
Record Replies : Type := mkReplies {
  (* [await loadFaceApiModels()] resolved *)
  modelsOk : bool;
  (* [await getFaceEncodings()] resolved *)
  encodingsOk : bool;
  (* [data] of the employees query ([null] on error) *)
  empData : option (list Employee);
  (* [format(new Date(), 'yyyy-MM-dd')] *)
  today : Z;
  (* the attendance query returned [data] *)
  attendanceOk : bool
}.

Definition toast (title : string) (w : World) : World :=
  mkWorld (faceDetected w) (isProcessing w) (lastMatch w) (recentAttendance w)
          (stateMarkedToday w) (stateStoredFaces w) (stateEmployees w)
          (processLock w) (timers w) (insertCalls w) (attendance w)
          (title :: toasts w).

Definition setStoredFaces (l : list StoredFace) (w : World) : World :=
  mkWorld (faceDetected w) (isProcessing w) (lastMatch w) (recentAttendance w)
          (stateMarkedToday w) l (stateEmployees w)
          (processLock w) (timers w) (insertCalls w) (attendance w) (toasts w).

Definition setEmployees (m : gmap string Employee) (w : World) : World :=
  mkWorld (faceDetected w) (isProcessing w) (lastMatch w) (recentAttendance w)
          (stateMarkedToday w) (stateStoredFaces w) m
          (processLock w) (timers w) (insertCalls w) (attendance w) (toasts w).

Definition setMarkedToday (m : gset string) (w : World) : World :=
  mkWorld (faceDetected w) (isProcessing w) (lastMatch w) (recentAttendance w)
          m (stateStoredFaces w) (stateEmployees w)
          (processLock w) (timers w) (insertCalls w) (attendance w) (toasts w).

(** [empData.forEach((emp) => empMap.set(emp.id, emp))] on a new [Map]. *)
Definition empMap (l : list Employee) : gmap string Employee :=
  fold_left (fun m emp => <[ id emp := emp ]> m) l ∅.

(** [select('employee_id').eq('date', today)], then [.map((a) => a.employee_id)]. *)
Definition attendanceData (today : Z) (rows : list Attendance.Row)
    : list string :=
  map Attendance.employee_id
      (filter (fun r => Attendance.date r = today) rows).

Definition initializeAttendance (db : IndexedDb.Store) (r : Replies)
    (w : World) : World :=
  if negb (modelsOk r) then toast "Initialization error" w
  else if negb (encodingsOk r) then toast "Initialization error" w
  else
    let w := setStoredFaces
               (map IndexedDb.toStoredFace (IndexedDb.getFaceEncodings db)) w in
    let w := match empData r with
             | Some l => setEmployees (empMap l) w
             | None => w
             end in
    if attendanceOk r then
      setMarkedToday (list_to_set (attendanceData (today r) (attendance w))) w
    else w.

(** The number of cooldown timers that fire in a list of events. *)
Fixpoint cooldowns (es : list Event) : nat :=
  match es with
  | [] => 0
  | Cooldown :: es => S (cooldowns es)
  | Tick _ :: es => cooldowns es
  end.

End Startup.

(** ** FaceRegistration: capturing and resetting *)

Module Capture.
Import FaceApi FaceRegistration.

(** The part of the page the capture buttons work on. *)
Record Page : Type := mkPage {
  session : Session;
  capturedImages : list string;
  faceDetected : bool
}.

(** What one click on Capture finds. *)
Record Shot : Type := mkShot {
  (* [videoRef.current] is set *)
  videoMounted : bool;
  (* result of [await detectFace(videoRef.current)] *)
  detection : option Descriptor;
  (* [canvas.getContext('2d')] returned a context *)
  canvasContext : bool;
  (* [canvas.toDataURL('image/jpeg', 0.8)] *)
  imageDataUrl : string
}.

(** The toasts of the capture buttons. *)
Inductive Notice : Type :=
| Captured (n : nat)     (* title [Captured n/5] *)
| NoFaceDetected
| CapturesReset.

Definition captureFrame (shot : Shot) (p : Page) : Page * list Notice :=
  if negb (videoMounted shot) || negb (faceDetected p) then (p, [])
  else
    match detection shot with
    | Some d =>
        let images :=
          if canvasContext shot then capturedImages p ++ [imageDataUrl shot]
          else capturedImages p in
        (mkPage (mkSession (capturedDescriptors (session p) ++ [d])
                           (formData (session p)))
                images (faceDetected p),
         [Captured (length (capturedDescriptors (session p)) + 1)])
    | None => (p, [NoFaceDetected])
    end.

Definition resetCaptures (p : Page) : Page * list Notice :=
  (mkPage (mkSession [] (formData (session p))) [] (faceDetected p),
   [CapturesReset]).

(** Clicking Capture once per shot. *)
Definition captureAll (shots : list Shot) (p : Page) : Page :=
  fold_left (fun p shot => fst (captureFrame shot p)) shots p.

(** A click that finds the video mounted and a face in it. *)
Definition goodShot (d : Descriptor) : Shot := mkShot true (Some d) true "".

End Capture.

(** ** The Employees page *)

Module Employees.

Record Employee : Type := mkEmployee {
  id : string;
  name : string;
  employee_id : string;
  department : string;
  email : option string;
  phone : option string;
  is_active : bool;
  created_at : Z;
  hasFaceData : bool
}.

Record State : Type := mkState {
  (* useState *)
  employees : list Employee;
  deletingId : option string;
  (* the local face-encoding store *)
  faces : IndexedDb.Store;
  (* ids whose delete was sent to the employees table, and those it removed *)
  deleteCalls : list string;
  deleted : list string;
  (* toast titles, newest first *)
  toasts : list string
}.

Record Replies : Type := mkReplies {
  (* [error] of the employees delete is set *)
  deleteError : bool;
  (* the face-encoding store rejects before deleting anything *)
  faceStoreFails : bool
}.

Definition withFaceData (b : bool) (e : Employee) : Employee :=
  mkEmployee (id e) (name e) (employee_id e) (department e) (email e)
             (phone e) (is_active e) (created_at e) b.

(** [fetchEmployees]: [data] is the reply of the select ([None]: error). *)
Definition fetchEmployees (data : option (list Employee)) (st : State) : State :=
  match data with
  | None =>
      mkState (employees st) (deletingId st) (faces st) (deleteCalls st)
              (deleted st) ("Error" :: toasts st)
  | Some l =>
      let l' :=
        map (fun emp =>
               withFaceData
                 (bool_decide
                    (is_Some (IndexedDb.getFaceEncodingByEmployee (id emp)
                                                                  (faces st))))
                 emp) l in
      mkState l' (deletingId st) (faces st) (deleteCalls st) (deleted st)
              (toasts st)
  end.

Definition handleDelete (isAdmin : bool) (employee : Employee) (r : Replies)
    (st : State) : State :=
  if negb isAdmin then
    mkState (employees st) (deletingId st) (faces st) (deleteCalls st)
            (deleted st) ("Permission denied" :: toasts st)
  else if deleteError r then
    mkState (employees st) None (faces st)
            (deleteCalls st ++ [id employee]) (deleted st)
            ("Error" :: toasts st)
  else if faceStoreFails r then
    mkState (employees st) None (faces st)
            (deleteCalls st ++ [id employee]) (deleted st ++ [id employee])
            ("Error" :: toasts st)
  else
    mkState (filter (fun e => id e <> id employee) (employees st)) None
            (IndexedDb.deleteFaceEncoding (id employee) (faces st))
            (deleteCalls st ++ [id employee]) (deleted st ++ [id employee])
            ("Employee deleted" :: toasts st).

End Employees.

(** ** The Dashboard page *)

Module Dashboard.

Record AttendanceRecord : Type := mkAttendanceRecord {
  id : string;
  check_in_time : Z;
  status : string;
  confidence_score : JsNum.number;
  name : string;
  department : string;
  employee_id : string
}.

Record Stats : Type := mkStats {
  totalEmployees : Z;
  presentToday : Z;
  lateToday : Z;
  absentToday : Z
}.

(** [todayAttendance?.filter(a => a.status === s).length || 0] *)
Definition countStatus (s : string)
    (todayAttendance : option (list AttendanceRecord)) : Z :=
  match todayAttendance with
  | Some rows => Z.of_nat (length (filter (fun a => status a = s) rows))
  | None => 0
  end.

(** [x || 0] on a count that may be [null]. *)
Definition orZero (x : option Z) : Z :=
  match x with
  | Some n => n
  | None => 0
  end.

(** The values [fetchDashboardData] hands to [setStats] and
    [setRecentAttendance]. *)
Definition fetchDashboardData (employeeCount : option Z)
    (todayAttendance : option (list AttendanceRecord))
    : Stats * list AttendanceRecord :=
  let presentCount := countStatus "present" todayAttendance in
  let lateCount := countStatus "late" todayAttendance in
  let totalPresent := (presentCount + lateCount)%Z in
  (mkStats (orZero employeeCount) presentCount lateCount
           (Z.max 0 (orZero employeeCount - totalPresent)),
   take 5 (default [] todayAttendance)).

End Dashboard.

(** ** Sample data for the stores and pages *)

Module Samples.
Import FaceApi IndexedDb.

Definition encodingE1 : FaceEncoding := mkFaceEncoding "k1" "E1" [[0%R]] 0.

Definition encodingE2 : FaceEncoding := mkFaceEncoding "k2" "E2" [[1%R]] 0.

(** A store holding one encoding for each of two employees. *)
Definition twoFaces : Store := put encodingE1 (put encodingE2 ∅).

(** An employee row of the Employees page, and a page showing it. *)
Definition bob : Employees.Employee :=
  Employees.mkEmployee "E1" "Bob" "B-001" "IT" None None true 0 true.

Definition employeesPage : Employees.State :=
  Employees.mkState [bob] None twoFaces [] [] [].

End Samples.

(** ** Reading a trace of [handleSubmit] *)

Module SubmitTrace.
Import FaceRegistration.

Definition isToast (e : Effect) : bool :=
  match e with
  | Toast _ => true
  | _ => false
  end.

(** The number of messages shown to the user. *)
Definition toastCount (trace : list Effect) : nat :=
  length (List.filter isToast trace).

(** The three required fields are filled in. *)
Definition formComplete (fd : FormData) : bool :=
  truthy (name fd) && truthy (employeeId fd) && truthy (department fd).

(** The one path on which everything succeeds. *)
Definition succeeds (s : Session) (r : Replies) : bool :=
  (REQUIRED_CAPTURES <=? length (capturedDescriptors s))%nat
  && formComplete (formData s)
  && negb (existing r)
  && match inserted r with Some _ => true | None => false end
  && negb (saveFailed r).

End SubmitTrace.

(** ** The Euclidean distance, as geometry has it *)

Module Geometry.

(** The square root of the sum of the squared coordinate differences,
    written with the library's list functions only; the coordinates are
    paired up to the shorter vector. *)
Definition euclidean (a b : list R) : R :=
  R_sqrt.sqrt
    (fold_right Rplus 0%R
       (map (fun p : R * R => ((fst p - snd p) ^ 2)%R) (combine a b))).

End Geometry.

(** ** LiveAttendance: the page around the loop *)

(** The loop function of [LiveAttendance] is run by the page: by
    [startCamera], which calls it once, and by [requestAnimationFrame], to
    which each run hands it again.  This module has the rest of the
    component: the two state variables that decide what is rendered, the
    refs that exist only while the [<video>] and [<canvas>] are rendered,
    the awaits of [initializeAttendance] one by one, [startCamera] and
    [stopCamera]. *)
Module AttendancePage.
Import JsNum FaceApi LocalTime LiveAttendance Startup.

Record Page : Type := mkPage {
  world : World;
  (* useState *)
  isModelLoading : bool;
  isCameraActive : bool;
  (* the component has been unmounted *)
  unmounted : bool;
  (* [streamRef.current] is set *)
  streamRef : bool;
  (* camera streams obtained from [getUserMedia] and not stopped *)
  openStreams : nat;
  (* how many awaits of [initializeAttendance] have settled; 4: it is over *)
  initStage : nat;
  (* calls of [startCamera] waiting for [getUserMedia], each with the
   [detectAndMatch] of the render whose button was clicked *)
  pendingStarts : list Closure;
  (* the [detectAndMatch] of which a run is outstanding: called by
   [startCamera], or handed to [requestAnimationFrame] by the run before *)
  loop : option Closure
}.

(** The component after its first render, beside an attendance table that
    holds [rows]: [useState(true)] for [isModelLoading], [useState(false)]
    for [isCameraActive], every ref empty. *)
Definition mountedPage (rows : list Attendance.Row) : Page :=
  mkPage (mounted rows) true false false false 0 0 [] None.

(** [videoRef.current] and [canvasRef.current] are set exactly while the
    third branch of
    [isModelLoading ? spinner : !isCameraActive ? button : (video, canvas)]
    is rendered. *)
Definition refsSet (p : Page) : bool :=
  negb (unmounted p) && negb (isModelLoading p) && isCameraActive p.

(** The Start Attendance button is rendered in the second branch, and is
    [disabled={storedFaces.length === 0}]. *)
Definition startShown (p : Page) : bool :=
  negb (unmounted p) && negb (isModelLoading p) && negb (isCameraActive p)
  && (0 <? length (stateStoredFaces (world p)))%nat.


Definition withWorld (w : World) (p : Page) : Page :=
  mkPage w (isModelLoading p) (isCameraActive p) (unmounted p) (streamRef p)
         (openStreams p) (initStage p) (pendingStarts p) (loop p).

Definition withStage (n : nat) (p : Page) : Page :=
  mkPage (world p) (isModelLoading p) (isCameraActive p) (unmounted p)
         (streamRef p) (openStreams p) n (pendingStarts p) (loop p).

Definition setIsModelLoading (b : bool) (p : Page) : Page :=
  mkPage (world p) b (isCameraActive p) (unmounted p) (streamRef p)
         (openStreams p) (initStage p) (pendingStarts p) (loop p).

(** The next await of [initializeAttendance] settles: the models, the face
    encodings, the employees query, the attendance query.  A rejection of
    one of the first two goes to [catch], which ends the function (and
    leaves [isModelLoading] as it is); the two queries do not throw. *)
Definition initStep (db : IndexedDb.Store) (r : Replies) (p : Page) : Page :=
  match initStage p with
  | 0%nat =>
      if modelsOk r then withStage 1 (setIsModelLoading false p)
      else withStage 4 (withWorld (toast "Initialization error" (world p)) p)
  | 1%nat =>
      if encodingsOk r then
        withStage 2
          (withWorld
             (setStoredFaces
                (map IndexedDb.toStoredFace (IndexedDb.getFaceEncodings db))
                (world p)) p)
      else withStage 4 (withWorld (toast "Initialization error" (world p)) p)
  | 2%nat =>
      withStage 3
        (match empData r with
         | Some l => withWorld (setEmployees (empMap l) (world p)) p
         | None => p
         end)
  | 3%nat =>
      withStage 4
        (if attendanceOk r then
           withWorld
             (setMarkedToday
                (list_to_set
                   (attendanceData (today r) (attendance (world p))))
                (world p)) p
         else p)
  | _ => p
  end.

(** A click on Start Attendance: [startCamera] begins and waits for
    [getUserMedia]; the [detectAndMatch] it will call is the one of the
    render that drew the button. *)
Definition clickStart (p : Page) : Page :=
  mkPage (world p) (isModelLoading p) (isCameraActive p) (unmounted p)
         (streamRef p) (openStreams p) (initStage p)
         (pendingStarts p ++ [render (world p)]) (loop p).

(** [getUserMedia] settles and the oldest waiting [startCamera] goes on:
    with a stream, [if (videoRef.current)] guards everything that follows
    (outside it the stream is simply dropped, still open); without one,
    [catch] shows the toast. *)
Definition streamSettles (granted : bool) (p : Page) : Page :=
  match pendingStarts p with
  | [] => p
  | c :: rest =>
      if granted then
        if refsSet p then
          mkPage (world p) (isModelLoading p) true (unmounted p) true
                 (S (openStreams p)) (initStage p) rest (Some c)
        else
          mkPage (world p) (isModelLoading p) (isCameraActive p) (unmounted p)
                 (streamRef p) (S (openStreams p)) (initStage p) rest (loop p)
      else
        mkPage (toast "Camera access denied" (world p)) (isModelLoading p)
               (isCameraActive p) (unmounted p) (streamRef p) (openStreams p)
               (initStage p) rest (loop p)
  end.

(** The outstanding run of [detectAndMatch] happens.  Its first line,
    [if (!videoRef.current || !canvasRef.current) return], ends the loop
    when the refs are unset: nothing is re-scheduled.  Otherwise the run
    is the one of [LiveAttendance.detectAndMatch], and its last statement
    hands the same function to [requestAnimationFrame]. *)
Definition runLoop (f : Frame) (p : Page) : Page :=
  match loop p with
  | None => p
  | Some c =>
      if refsSet p then withWorld (detectAndMatch c f (world p)) p
      else
        mkPage (world p) (isModelLoading p) (isCameraActive p) (unmounted p)
               (streamRef p) (openStreams p) (initStage p) (pendingStarts p)
               None
  end.

Definition timer (p : Page) : Page := withWorld (cooldown (world p)) p.

(** [stopCamera]: the tracks of [streamRef.current] are stopped, the
    scheduled animation frame is cancelled, three setters run. *)
Definition stopCamera (p : Page) : Page :=
  mkPage (setLastMatch None (setFaceDetected false (world p)))
         (isModelLoading p) false (unmounted p) false
         (if streamRef p then pred (openStreams p) else openStreams p)
         (initStage p) (pendingStarts p) None.

(** The cleanup of the mount effect is [stopCamera]. *)
Definition unmount (p : Page) : Page :=
  let p := stopCamera p in
  mkPage (world p) (isModelLoading p) (isCameraActive p) true (streamRef p)
         (openStreams p) (initStage p) (pendingStarts p) (loop p).

Inductive PageEvent : Type :=
| InitSettles (db : IndexedDb.Store) (r : Replies)
| ClickStart
| StreamSettles (granted : bool)
| Run (f : Frame)
| Timer
| ClickStop
| Unmount.

Definition reactPage (p : Page) (e : PageEvent) : Page :=
  match e with
  | InitSettles db r => initStep db r p
  | ClickStart => clickStart p
  | StreamSettles granted => streamSettles granted p
  | Run f => runLoop f p
  | Timer => timer p
  | ClickStop => stopCamera p
  | Unmount => unmount p
  end.



Definition runPage (p : Page) (es : list PageEvent) : Page :=
  fold_left reactPage es p.



End AttendancePage.

(** ** A day on the page *)

Module PageScenario.
Import JsNum FaceApi LocalTime LiveAttendance Startup AttendancePage.





End PageScenario.

(** * Properties *)

(** ** The distance *)

Section Distance.
Import JsNum FaceApi.
Local Open Scope R_scope.

Lemma sumSquares_nonneg (a b : Descriptor) : 0 <= sumSquares a b.
Proof.
  revert b. induction a as [|x a IH]; intros [|y b]; simpl; try lra.
  specialize (IH b). pose proof (pow2_ge_0 (x - y)). lra.
Qed.

Lemma sumSquares_sym (a b : Descriptor) : sumSquares a b = sumSquares b a.
Proof.
  revert b. induction a as [|x a IH]; intros [|y b]; simpl; try reflexivity.
  rewrite (IH b). ring.
Qed.

Lemma sumSquares_refl (a : Descriptor) : sumSquares a a = 0.
Proof. induction a as [|x a IH]; simpl; [reflexivity | rewrite IH; ring]. Qed.

Lemma sumSquares_zero (a b : Descriptor) :
  length a = length b -> sumSquares a b = 0 -> a = b.
Proof.
  revert b. induction a as [|x a IH]; intros [|y b] Hlen Hs;
    simpl in *; try discriminate; try reflexivity.
  pose proof (sumSquares_nonneg a b). pose proof (pow2_ge_0 (x - y)).
  assert (Hx : (x - y) ^ 2 = 0) by lra.
  assert (Hr : sumSquares a b = 0) by lra.
  assert (x = y) by nra.
  f_equal; [assumption | apply IH; [lia | assumption]].
Qed.

(** Shifting the index by one is reading the tails. *)
Lemma accumulate_shift (x y : R) (a b : Descriptor) (l : list nat) (s : number) :
  fold_left (accumulate (x :: a) (y :: b)) (map S l) s
  = fold_left (accumulate a b) l s.
Proof.
  revert s. induction l as [|i l IH]; intros s; simpl; [reflexivity|].
  rewrite IH. reflexivity.
Qed.

(** The loop computes [sumSquares] when [arr2] is long enough. *)
Lemma loop_sumSquares (a b : Descriptor) (s : R) :
  (length a <= length b)%nat ->
  fold_left (accumulate a b) (seq 0 (length a)) (Fin s)
  = Fin (s + sumSquares a b).
Proof.
  revert b s. induction a as [|x a IH]; intros b s Hlen.
  - simpl. f_equal. ring.
  - destruct b as [|y b]; cbn [length] in Hlen; [lia|].
    cbn [length seq fold_left sumSquares].
    rewrite <- seq_shift, accumulate_shift.
    change (accumulate (x :: a) (y :: b) (Fin s) 0%nat)
      with (Fin (s + (x - y) ^ 2)).
    rewrite IH by lia. f_equal. ring.
Qed.

Lemma euclideanDistance_Fin (a b : Descriptor) :
  (length a <= length b)%nat ->
  euclideanDistance a b = Fin (R_sqrt.sqrt (sumSquares a b)).
Proof.
  intros Hlen. unfold euclideanDistance.
  rewrite loop_sumSquares by assumption. unfold sqrt.
  rewrite Rplus_0_l.
  destruct (Rlt_dec (sumSquares a b) 0) as [Hneg|_]; [|reflexivity].
  pose proof (sumSquares_nonneg a b). lra.
Qed.

Lemma euclideanDistance_self (a : Descriptor) : euclideanDistance a a = Fin 0.
Proof.
  rewrite euclideanDistance_Fin by lia. now rewrite sumSquares_refl, sqrt_0.
Qed.

(** A read past the end of [arr2] poisons the sum. *)
Example euclideanDistance_short : euclideanDistance [1] [] = NaN.
Proof. reflexivity. Qed.

(** C8. For embeddings [a] and [b] of the same length,
    [euclideanDistance a b] equals [euclideanDistance b a]; and the
    distance of any embedding to itself is exactly 0 (exact real
    arithmetic). *)
Theorem C8_distance_symmetric_and_zero_on_self (a b : Descriptor) :
  length a = length b ->
  euclideanDistance a b = euclideanDistance b a /\
  euclideanDistance a a = Fin 0.
Proof.
  intros Hlen. split.
  - rewrite !euclideanDistance_Fin by lia. now rewrite sumSquares_sym.
  - apply euclideanDistance_self.
Qed.

Lemma C8_witness :
  length [1; 2] = length [3; 5] /\
  euclideanDistance [1; 2] [3; 5] = euclideanDistance [3; 5] [1; 2] /\
  euclideanDistance [1; 2] [1; 2] = Fin 0.
Proof.
  split; [reflexivity|].
  apply (C8_distance_symmetric_and_zero_on_self [1; 2] [3; 5]). reflexivity.
Defined.

End Distance.

(** ** The matcher *)

Section Matcher.
Import JsNum FaceApi.
Local Open Scope R_scope.

Implicit Types (d e : Descriptor) (l : list (string * Descriptor))
               (st : list StoredFace) (m : Match).

Lemma scan_map_pair d (i : string) (ds : list Descriptor) (acc : option Match) :
  scan d (map (pair i) ds) acc = fold_left (consider d i) ds acc.
Proof.
  revert acc. induction ds as [|e ds IH]; intros acc; simpl; [reflexivity|].
  apply IH.
Qed.

Lemma scan_app d l1 l2 (acc : option Match) :
  scan d (l1 ++ l2) acc = scan d l2 (scan d l1 acc).
Proof. apply fold_left_app. Qed.

(** The nested loops visit [pairs st] in order. *)
Lemma findBestMatch_scan d st : findBestMatch d st = scan d (pairs st) None.
Proof.
  unfold findBestMatch. generalize (@None Match) as acc.
  induction st as [|s st IH]; intros acc; simpl; [reflexivity|].
  rewrite scan_app, scan_map_pair. apply IH.
Qed.

Lemma scan_cons d p l (acc : option Match) :
  scan d (p :: l) acc = scan d l (consider d (fst p) acc (snd p)).
Proof. reflexivity. Qed.

Lemma consider_is_Some d (i : string) (acc : option Match) e :
  is_Some (consider d i acc e).
Proof.
  unfold consider. destruct acc as [b|]; [|eauto].
  destruct (lt _ _); eauto.
Qed.

Lemma scan_Some d l (b : Match) : is_Some (scan d l (Some b)).
Proof.
  revert b. induction l as [|p l IH]; intros b; [simpl; eauto|].
  rewrite scan_cons.
  destruct (consider_is_Some d (fst p) (Some b) (snd p)) as [b' Hb'].
  rewrite Hb'. apply IH.
Qed.

Lemma scan_None d l : scan d l None = None <-> l = [].
Proof.
  split; [|intros ->; reflexivity].
  destruct l as [|p l]; [reflexivity|]. rewrite scan_cons. intros H.
  destruct (scan_Some d l (mkMatch (fst p) (euclideanDistance d (snd p))))
    as [b Hb].
  unfold consider in H. congruence.
Qed.

Lemma lt_Fin_true (x y : R) : lt (Fin x) (Fin y) = true <-> x < y.
Proof. unfold lt. destruct (Rlt_dec x y); split; intros; try easy. Qed.

Lemma lt_Fin_false (x y : R) : lt (Fin x) (Fin y) = false <-> y <= x.
Proof.
  unfold lt. destruct (Rlt_dec x y); split; intros; try easy; lra.
Qed.

(** The running best after a non-empty prefix is its first minimum. *)
Lemma scan_firstMinimum d l :
  Forall (fun p => length (snd p) = length d) l -> l <> [] ->
  exists m, scan d l None = Some m /\ firstMinimum d l m.
Proof.
  induction l as [|p l IH] using rev_ind; [easy|]. intros Hlen _.
  apply Forall_app in Hlen as [Hl Hp]. rewrite Forall_singleton in Hp.
  rewrite scan_app, scan_cons. change (scan d [] ?x) with x.
  assert (Ep : euclideanDistance d (snd p)
               = Fin (R_sqrt.sqrt (sumSquares d (snd p)))).
  { apply euclideanDistance_Fin. simpl in Hp. lia. }
  destruct (decide (l = [])) as [->|Hne].
  - (* the first pair *)
    simpl. eexists. split; [reflexivity|].
    exists 0%nat, (snd p). simpl. repeat split.
    + now destruct p.
    + intros j r Hj. apply list_lookup_singleton_Some in Hj as [_ <-].
      rewrite Ep. simpl. lra.
    + intros j r Hj. lia.
  - destruct (IH Hl Hne) as (m & Hm & i & e & Hi & He & Hmin & Hfirst).
    rewrite Hm. unfold consider.
    assert (Hde : euclideanDistance d e
                  = Fin (R_sqrt.sqrt (sumSquares d e))).
    { apply euclideanDistance_Fin.
      apply (Forall_lookup_1 _ _ _ _ Hl) in Hi. simpl in Hi. lia. }
    rewrite Hde in He. rewrite Ep, <- He.
    destruct (lt _ _) eqn:Hlt.
    + (* strictly closer: the new pair takes over *)
      apply lt_Fin_true in Hlt.
      eexists. split; [reflexivity|].
      exists (length l), (snd p). simpl. repeat split.
      * rewrite lookup_app_r, Nat.sub_diag by lia. now destruct p.
      * assumption.
      * intros j r Hj. apply lookup_snoc_Some in Hj as [[_ Hj]| [_ <-]].
        -- specialize (Hmin j r Hj). rewrite <- He in Hmin.
           destruct (euclideanDistance d (snd r)); simpl in *; [easy | lra].
        -- rewrite Ep. simpl. lra.
      * intros j r Hlt' Hj. apply lookup_snoc_Some in Hj as [[_ Hj]| [-> _]];
          [|lia].
        specialize (Hmin j r Hj). rewrite <- He in Hmin.
        destruct (euclideanDistance d (snd r)); simpl in *; [easy | lra].
    + (* not closer: the running best stays *)
      apply lt_Fin_false in Hlt.
      exists m. split; [reflexivity|].
      exists i, e. repeat split.
      * now apply lookup_app_l_Some.
      * now rewrite Hde.
      * intros j r Hj. apply lookup_snoc_Some in Hj as [[_ Hj]| [_ <-]].
        -- now apply (Hmin j r).
        -- rewrite <- He, Ep. simpl. lra.
      * intros j r Hlt' Hj. apply lookup_snoc_Some in Hj as [[_ Hj]| [-> _]].
        -- now apply (Hfirst j r).
        -- apply lookup_lt_Some in Hi. lia.
Qed.

Lemma in_pairs st (i : string) e :
  In (i, e) (pairs st) <->
  exists s, In s st /\ employeeId s = i /\ In e (descriptors s).
Proof.
  unfold pairs. rewrite in_flat_map. split.
  - intros (s & Hs & Hin). apply in_map_iff in Hin as (e' & Heq & He').
    inversion Heq; subst. eauto.
  - intros (s & Hs & <- & He). exists s. split; [assumption|].
    apply in_map_iff. eauto.
Qed.

Lemma pairs_nil st :
  pairs st = [] <-> forall s, In s st -> descriptors s = [].
Proof.
  split.
  - intros Hnil s Hs. destruct (descriptors s) as [|e es] eqn:Hd; [reflexivity|].
    assert (Hin : In (employeeId s, e) (pairs st)).
    { apply in_pairs. exists s. rewrite Hd. simpl. auto. }
    rewrite Hnil in Hin. destruct Hin.
  - intros Hall. destruct (pairs st) as [|[i e] l] eqn:Hp; [reflexivity|].
    assert (Hin : In (i, e) (pairs st)) by (rewrite Hp; simpl; auto).
    apply in_pairs in Hin as (s & Hs & _ & He).
    rewrite (Hall s Hs) in He. destruct He.
Qed.

(** At most one match is the first minimum of a list. *)
Lemma firstMinimum_unique d l m m' :
  firstMinimum d l m -> firstMinimum d l m' -> m' = m.
Proof.
  intros (i & e & Hi & He & Hmin & Hfirst) (i' & e' & Hi' & He' & Hmin' & Hfirst').
  destruct (Nat.lt_trichotomy i i') as [Hlt | [Heq | Hgt]].
  - specialize (Hfirst' i _ Hlt Hi). specialize (Hmin i' _ Hi').
    simpl in *. rewrite He in Hfirst'. rewrite He' in Hmin.
    destruct (distance m), (distance m'); simpl in *; try easy. lra.
  - subst i'. rewrite Hi in Hi'. inversion Hi'; subst.
    destruct m, m'; simpl in *. congruence.
  - specialize (Hfirst i' _ Hgt Hi'). specialize (Hmin' i _ Hi).
    simpl in *. rewrite He' in Hfirst. rewrite He in Hmin'.
    destruct (distance m), (distance m'); simpl in *; try easy. lra.
Qed.

(** Without fixed-length embeddings the minimum is not guaranteed: a stored
    embedding shorter than the live one has distance [NaN], and once [NaN]
    is the running best no later distance compares smaller. *)
Example findBestMatch_short_embedding_sticks :
  findBestMatch [0] [mkStoredFace "A" [[]]; mkStoredFace "B" [[0]]]
  = Some (mkMatch "A" NaN).
Proof.
  unfold findBestMatch. cbn [fold_left descriptors employeeId].
  unfold consider. rewrite euclideanDistance_self. reflexivity.
Qed.

(** [sumSquares] is the sum that geometry writes. *)
Lemma sumSquares_combine (a b : Descriptor) :
  sumSquares a b
  = fold_right Rplus 0 (map (fun p : R * R => (fst p - snd p) ^ 2) (combine a b)).
Proof.
  revert b. induction a as [|x a IH]; intros [|y b]; simpl; try reflexivity.
  now rewrite IH.
Qed.

(** On embeddings of the same length the loop of [euclideanDistance]
    computes the Euclidean distance. *)
Lemma euclideanDistance_euclidean (a b : Descriptor) :
  length b = length a ->
  euclideanDistance a b = Fin (Geometry.euclidean a b).
Proof.
  intros Hlen. rewrite euclideanDistance_Fin by lia.
  unfold Geometry.euclidean. now rewrite sumSquares_combine.
Qed.

(** C2. [findBestMatch] returns [null] exactly when the reference set holds
    no (identity, embedding) pair; on a set with at least one pair (all
    embeddings of the length of the live one) it returns a match whose
    identity owns a stored embedding [e] such that the returned distance
    is the Euclidean distance between the live embedding and [e], the
    square root of the sum of the squared coordinate differences, and no
    stored embedding of any identity has a smaller Euclidean distance to
    the live embedding. *)
Theorem C2_findBestMatch_null_iff_no_pair_else_global_minimum d st :
  (findBestMatch d st = None <-> forall s, In s st -> descriptors s = []) /\
  (sameLength d st ->
   (exists s, In s st /\ descriptors s <> []) ->
   exists m s e,
     findBestMatch d st = Some m /\
     In s st /\ employeeId s = matchEmployeeId m /\ In e (descriptors s) /\
     distance m = Fin (Geometry.euclidean d e) /\
     forall s' e', In s' st -> In e' (descriptors s') ->
       Geometry.euclidean d e <= Geometry.euclidean d e').
Proof.
  rewrite findBestMatch_scan. split.
  - rewrite scan_None. apply pairs_nil.
  - intros Hlen (s0 & Hs0 & Hne).
    assert (Hp : pairs st <> []).
    { intros Hnil. apply Hne. now apply (proj1 (pairs_nil st) Hnil). }
    destruct (scan_firstMinimum d (pairs st) Hlen Hp)
      as (m & Hm & i & e & Hi & He & Hmin & _).
    assert (Hin : In (matchEmployeeId m, e) (pairs st))
      by (apply list_elem_of_In; eapply list_elem_of_lookup_2; exact Hi).
    assert (Hle : length e = length d).
    { unfold sameLength in Hlen. rewrite List.Forall_forall in Hlen.
      apply (Hlen _ Hin). }
    apply in_pairs in Hin as (s & Hs & Hid & Hes).
    rewrite (euclideanDistance_euclidean d e Hle) in He.
    exists m, s, e.
    split; [assumption|]. split; [assumption|]. split; [assumption|].
    split; [assumption|]. split; [symmetry; exact He|].
    intros s' e' Hs' He'.
    assert (Hin' : In (employeeId s', e') (pairs st))
      by (apply in_pairs; eauto).
    assert (Hle' : length e' = length d).
    { unfold sameLength in Hlen. rewrite List.Forall_forall in Hlen.
      apply (Hlen _ Hin'). }
    apply list_elem_of_In, list_elem_of_lookup_1 in Hin' as [j Hj].
    specialize (Hmin j _ Hj). cbn [snd] in Hmin.
    rewrite (euclideanDistance_euclidean d e' Hle'), <- He in Hmin.
    exact Hmin.
Qed.

Lemma C2_witness :
  (sameLength Scenario.probe Scenario.gallery /\
   exists s, In s Scenario.gallery /\ descriptors s <> []) /\
  exists m s e,
    findBestMatch Scenario.probe Scenario.gallery = Some m /\
    In s Scenario.gallery /\ employeeId s = matchEmployeeId m /\
    In e (descriptors s) /\
    distance m = Fin (Geometry.euclidean Scenario.probe e) /\
    forall s' e', In s' Scenario.gallery -> In e' (descriptors s') ->
      Geometry.euclidean Scenario.probe e <= Geometry.euclidean Scenario.probe e'.
Proof.
  assert (H1 : sameLength Scenario.probe Scenario.gallery)
    by (repeat constructor).
  assert (H2 : exists s, In s Scenario.gallery /\ descriptors s <> []).
  { exists (mkStoredFace "B" [[1]]). split; [simpl; auto | discriminate]. }
  split; [split; assumption|].
  exact (proj2 (C2_findBestMatch_null_iff_no_pair_else_global_minimum
                  Scenario.probe Scenario.gallery) H1 H2).
Defined.

(** C10. [findBestMatch] is a function of its two arguments, and among the
    pairs at the least distance it returns the one met first in the order
    of enumeration (outer list, then the descriptors of an identity): every
    earlier pair is strictly farther.  That pair is unique, so the result
    is determined by the inputs. *)
Theorem C10_findBestMatch_returns_first_minimum d st :
  sameLength d st -> pairs st <> [] ->
  exists m,
    findBestMatch d st = Some m /\
    firstMinimum d (pairs st) m /\
    (forall m', firstMinimum d (pairs st) m' -> m' = m) /\
    (forall r, findBestMatch d st = r -> r = Some m).
Proof.
  intros Hlen Hp.
  destruct (scan_firstMinimum d (pairs st) Hlen Hp) as (m & Hm & Hfirst).
  rewrite findBestMatch_scan. exists m. repeat split.
  - assumption.
  - assumption.
  - intros m' Hm'. now apply (firstMinimum_unique d (pairs st)).
  - intros r <-. assumption.
Qed.

Lemma C10_witness :
  (sameLength Scenario.probe Scenario.gallery /\
   pairs Scenario.gallery <> []) /\
  exists m,
    findBestMatch Scenario.probe Scenario.gallery = Some m /\
    firstMinimum Scenario.probe (pairs Scenario.gallery) m /\
    (forall m', firstMinimum Scenario.probe (pairs Scenario.gallery) m' ->
                m' = m) /\
    (forall r, findBestMatch Scenario.probe Scenario.gallery = r ->
               r = Some m).
Proof.
  assert (H1 : sameLength Scenario.probe Scenario.gallery)
    by (repeat constructor).
  assert (H2 : pairs Scenario.gallery <> []) by discriminate.
  split; [split; assumption|].
  exact (C10_findBestMatch_returns_first_minimum
           Scenario.probe Scenario.gallery H1 H2).
Defined.

(** Distance 0 is reached by the live embedding itself only. *)
Lemma euclideanDistance_zero d e :
  length e = length d -> euclideanDistance d e = Fin 0 -> e = d.
Proof.
  intros Hlen H. rewrite euclideanDistance_Fin in H by lia.
  inversion H as [H0]. symmetry.
  apply sumSquares_zero; [lia|].
  apply sqrt_eq_0; [apply sumSquares_nonneg | assumption].
Qed.

(** Two identities enrolled with the same embedding: the query is stored
    under X, and the identity listed before X is returned. *)
Lemma C3_counterexample :
  ~ (forall d st (X : string),
        sameLength d st -> In (X, d) (pairs st) ->
        exists m, findBestMatch d st = Some m /\
                  matchEmployeeId m = X /\ distance m = Fin 0).
Proof.
  intros H.
  destruct (H Scenario.probe Scenario.twins "X") as (m & Hm & HX & _).
  - repeat constructor.
  - simpl. auto.
  - unfold findBestMatch, Scenario.twins, Scenario.probe in Hm.
    simpl in Hm. unfold consider in Hm.
    rewrite euclideanDistance_self in Hm. simpl in Hm.
    destruct (Rlt_dec 0 0) as [Hlt|_]; [lra|].
    inversion Hm; subst. simpl in HX. discriminate.
Qed.

(** C3 (amended). On a reference set that contains the exact query
    embedding under identity X, [findBestMatch] returns distance 0 and the
    identity of the first pair, in enumeration order, that holds the query
    embedding; that identity is X whenever X is the only identity storing
    the query embedding. *)
Theorem C3_exact_embedding_distance_zero_first_owner d st (X : string) :
  sameLength d st -> In (X, d) (pairs st) ->
  exists m,
    findBestMatch d st = Some m /\
    distance m = Fin 0 /\
    (exists i, pairs st !! i = Some (matchEmployeeId m, d) /\
               forall j p, (j < i)%nat -> pairs st !! j = Some p ->
                           snd p <> d) /\
    ((forall Y, In (Y, d) (pairs st) -> Y = X) -> matchEmployeeId m = X).
Proof.
  intros Hlen HX.
  assert (Hp : pairs st <> []) by (intros Hnil; rewrite Hnil in HX; easy).
  destruct (scan_firstMinimum d (pairs st) Hlen Hp)
    as (m & Hm & i & e & Hi & He & Hmin & Hfirst).
  rewrite findBestMatch_scan. exists m. split; [assumption|].
  assert (Hle : length e = length d)
    by apply (Forall_lookup_1 _ _ _ _ Hlen Hi).
  assert (H0 : distance m = Fin 0).
  { apply list_elem_of_In, list_elem_of_lookup_1 in HX as [k Hk].
    specialize (Hmin k _ Hk). simpl in Hmin.
    rewrite euclideanDistance_self in Hmin.
    rewrite euclideanDistance_Fin in He by lia. rewrite <- He in *.
    simpl in Hmin. f_equal.
    pose proof (sqrt_pos (sumSquares d e)). lra. }
  assert (Hed : e = d).
  { apply euclideanDistance_zero; [assumption | congruence]. }
  subst e. split; [assumption|]. split.
  - exists i. split; [assumption|].
    intros j p Hj Hjp Heq. specialize (Hfirst j p Hj Hjp).
    rewrite Heq, euclideanDistance_self, H0 in Hfirst. simpl in Hfirst. lra.
  - intros Honly. apply Honly.
    now apply list_elem_of_In, list_elem_of_lookup_2 with i.
Qed.

Lemma C3_witness :
  (sameLength Scenario.probe Scenario.twins /\
   In ("X", Scenario.probe) (pairs Scenario.twins)) /\
  exists m,
    findBestMatch Scenario.probe Scenario.twins = Some m /\
    distance m = Fin 0 /\
    (exists i, pairs Scenario.twins !! i
               = Some (matchEmployeeId m, Scenario.probe) /\
               forall j p, (j < i)%nat -> pairs Scenario.twins !! j = Some p ->
                           snd p <> Scenario.probe) /\
    ((forall Y, In (Y, Scenario.probe) (pairs Scenario.twins) -> Y = "X") ->
     matchEmployeeId m = "X").
Proof.
  assert (H1 : sameLength Scenario.probe Scenario.twins)
    by (repeat constructor).
  assert (H2 : In ("X", Scenario.probe) (pairs Scenario.twins))
    by (simpl; auto).
  split; [split; assumption|].
  exact (C3_exact_embedding_distance_zero_first_owner
           Scenario.probe Scenario.twins "X" H1 H2).
Defined.

End Matcher.

(** ** Check-in status *)

Section Status.
Import JsNum FaceApi LocalTime LiveAttendance.
Local Open Scope Z_scope.

Lemma day_timeOfDay (t : Z) : t = day t * MS_PER_DAY + timeOfDay t.
Proof.
  unfold day, timeOfDay, MS_PER_DAY.
  rewrite Z.mul_comm. apply Z.div_mod. discriminate.
Qed.

Lemma timeOfDay_at (d h m s : Z) :
  0 <= (h * 60 + m) * 60 + s < 86400 ->
  day (at_ d h m s) = d /\
  timeOfDay (at_ d h m s) = ((h * 60 + m) * 60 + s) * 1000.
Proof.
  intros Hr. unfold day, timeOfDay, at_, MS_PER_DAY.
  rewrite Z.add_comm, Z.div_add, Z_mod_plus_full by discriminate.
  rewrite Z.div_small, Z.mod_small by lia. split; lia.
Qed.

(** When both clock reads fall on the same day, the comparison of the two
    dates is the comparison of the time of day with 09:00:00.000. *)
Lemma statusAt_timeOfDay (now workStart : Z) :
  day workStart = day now ->
  statusAt now (setHours9 workStart)
  = if timeOfDay now >? NINE_AM then Attendance.late else Attendance.present.
Proof.
  intros Hday. unfold statusAt, setHours9. rewrite Hday.
  rewrite (day_timeOfDay now) at 1.
  destruct (Z.gtb_spec (timeOfDay now) NINE_AM);
    destruct (Z.gtb_spec (day now * MS_PER_DAY + timeOfDay now)
                         (day now * MS_PER_DAY + NINE_AM));
    try reflexivity; lia.
Qed.

(** [markAttendance] issues exactly one insert, of the row [checkIn]. *)
Lemma markAttendance_insertCalls employee confidence f w :
  insertCalls (markAttendance employee confidence f w)
  = insertCalls w
    ++ [checkIn employee confidence (clockNow f) (clockWorkStart f)].
Proof. unfold markAttendance. destruct (insertError f); reflexivity. Qed.

(** The two clock reads of [markAttendance] on one local day [d], at [t]
    and [t'] milliseconds after midnight: the status is [late] exactly
    when [t] is past 32400000 ms, which is 09:00:00.000. *)
Lemma statusAt_same_day (d t t' : Z) :
  0 <= t < 86400000 -> 0 <= t' < 86400000 ->
  statusAt (d * 86400000 + t) (setHours9 (d * 86400000 + t'))
  = if t >? 32400000 then Attendance.late else Attendance.present.
Proof.
  intros Ht Ht'. unfold statusAt, setHours9, day, MS_PER_DAY, NINE_AM.
  assert (Hd : (d * 86400000 + t') / 86400000 = d).
  { rewrite Z.add_comm, Z.div_add, Z.div_small by lia. reflexivity. }
  rewrite Hd.
  destruct (Z.gtb_spec (d * 86400000 + t) (d * 86400000 + 9 * 3600000));
    destruct (Z.gtb_spec t 32400000); try reflexivity; lia.
Qed.

(** C4 (evaluation at the failing input). [markAttendance] reads the clock
    twice, [now] and then [workStartTime].  With the first read at
    23:59:59.999 of day 0 and the second one millisecond later, on day 1,
    the cutoff date is 09:00 of day 1: the check-in, dated day 0 and timed
    23:59:59.999, almost fifteen hours after the 09:00 cutoff of its day,
    is emitted with status [present].  With the cutoff taken from [now]
    it is [late]; and with both reads on one day the code has the cutoff
    at 09:00:00.000 sharp. *)
Theorem C4_check_in_before_midnight_is_marked_present :
  let f := mkFrame true None 86399999 86400000 false in
  (exists row,
     insertCalls (markAttendance Scenario.alice (Fin 100) f Scenario.start)
       = [row] /\
     Attendance.check_in_time row
       = 0 * 86400000 + ((23 * 60 + 59) * 60 + 59) * 1000 + 999 /\
     Attendance.date row = 0 /\
     0 * 86400000 + 9 * 3600 * 1000 < Attendance.check_in_time row /\
     Attendance.status row = Attendance.present) /\
  Attendance.status (checkIn Scenario.alice (Fin 100) 86399999 86399999)
    = Attendance.late /\
  Attendance.status (checkIn Scenario.alice (Fin 100) 32400000 32400000)
    = Attendance.present /\
  Attendance.status (checkIn Scenario.alice (Fin 100) 32400001 32400001)
    = Attendance.late.
Proof.
  cbv zeta. split; [|repeat split].
  eexists. split; [reflexivity|]. repeat split.
Qed.

(** A check-in at 09:00:00.000 sharp is at the cutoff, and is [present]. *)
Lemma C5_counterexample :
  ~ (forall employee confidence now workStart,
        day workStart = day now ->
        (timeOfDay now < NINE_AM ->
         Attendance.status (checkIn employee confidence now workStart)
         = Attendance.present) /\
        (NINE_AM <= timeOfDay now ->
         Attendance.status (checkIn employee confidence now workStart)
         = Attendance.late)).
Proof.
  intros H.
  destruct (H Scenario.alice (Fin 100) (at_ 0 9 0 0) (at_ 0 9 0 0) eq_refl)
    as [_ Hlate].
  assert (Hbad : Attendance.status
                   (checkIn Scenario.alice (Fin 100) (at_ 0 9 0 0) (at_ 0 9 0 0))
                 = Attendance.late) by (apply Hlate; vm_compute; discriminate).
  vm_compute in Hbad. discriminate.
Qed.

(** C5 (amended). For a check-in that [markAttendance] emits with its two
    clock reads on the same local day [d], the first [t] milliseconds
    after midnight: it is [present] when [t] is strictly before
    09:00:00.000 (32400000 ms), [late] when [t] is strictly after, and
    [present] when [t] is exactly the cutoff; in particular 08:59:59
    gives [present] and 09:00:01 gives [late]. *)
Theorem C5_status_before_present_after_late_at_cutoff_present
    employee confidence f w (d t t' : Z) :
  0 <= t < 86400000 -> 0 <= t' < 86400000 ->
  clockNow f = d * 86400000 + t ->
  clockWorkStart f = d * 86400000 + t' ->
  exists row,
    insertCalls (markAttendance employee confidence f w)
      = insertCalls w ++ [row] /\
    Attendance.check_in_time row = d * 86400000 + t /\
    (t < 32400000 -> Attendance.status row = Attendance.present) /\
    (32400000 < t -> Attendance.status row = Attendance.late) /\
    (t = 32400000 -> Attendance.status row = Attendance.present) /\
    (t = ((8 * 60 + 59) * 60 + 59) * 1000 ->
     Attendance.status row = Attendance.present) /\
    (t = ((9 * 60 + 0) * 60 + 1) * 1000 ->
     Attendance.status row = Attendance.late).
Proof.
  intros Ht Ht' Hnow Hws.
  eexists. split; [apply markAttendance_insertCalls|].
  cbn [Attendance.check_in_time Attendance.status checkIn].
  rewrite Hnow, Hws, statusAt_same_day by assumption.
  split; [reflexivity|].
  destruct (Z.gtb_spec t 32400000); repeat split; intros;
    try reflexivity; lia.
Qed.

Lemma C5_witness :
  (0 <= 32401000 < 86400000 /\ 0 <= 32401002 < 86400000 /\
   clockNow (mkFrame true None (3 * 86400000 + 32401000)
                     (3 * 86400000 + 32401002) false)
     = 3 * 86400000 + 32401000 /\
   clockWorkStart (mkFrame true None (3 * 86400000 + 32401000)
                           (3 * 86400000 + 32401002) false)
     = 3 * 86400000 + 32401002) /\
  exists row,
    insertCalls
      (markAttendance Scenario.alice (Fin 100)
         (mkFrame true None (3 * 86400000 + 32401000)
                  (3 * 86400000 + 32401002) false)
         Scenario.start)
      = insertCalls Scenario.start ++ [row] /\
    Attendance.check_in_time row = 3 * 86400000 + 32401000 /\
    (32401000 < 32400000 -> Attendance.status row = Attendance.present) /\
    (32400000 < 32401000 -> Attendance.status row = Attendance.late) /\
    (32401000 = 32400000 -> Attendance.status row = Attendance.present) /\
    (32401000 = ((8 * 60 + 59) * 60 + 59) * 1000 ->
     Attendance.status row = Attendance.present) /\
    (32401000 = ((9 * 60 + 0) * 60 + 1) * 1000 ->
     Attendance.status row = Attendance.late).
Proof.
  assert (H1 : 0 <= 32401000 < 86400000) by lia.
  assert (H2 : 0 <= 32401002 < 86400000) by lia.
  split; [repeat split; lia|].
  exact (C5_status_before_present_after_late_at_cutoff_present
           Scenario.alice (Fin 100)
           (mkFrame true None (3 * 86400000 + 32401000)
                    (3 * 86400000 + 32401002) false)
           Scenario.start 3 32401000 32401002 H1 H2 eq_refl eq_refl).
Defined.

End Status.

(** ** The recognition loop *)

Section Loop.
Import JsNum FaceApi LocalTime LiveAttendance.

Implicit Types (c : Closure) (w : World) (f : Frame) (e : Event).

(** C6. When the insert of [markAttendance] returns an error, the
    [markedToday] state is left as it was, so an identity that was not
    marked is still not marked and stays eligible; the state is extended
    with the identity only when the insert succeeds, and then by exactly
    that identity. *)
Theorem C6_markedToday_unchanged_on_insert_error employee confidence f w :
  insertError f = true ->
  let w' := markAttendance employee confidence f w in
  stateMarkedToday w' = stateMarkedToday w /\
  markedToday (render w') = markedToday (render w) /\
  attendance w' = attendance w /\
  (id employee ∉ stateMarkedToday w -> id employee ∉ stateMarkedToday w') /\
  (forall f', insertError f' = false ->
     stateMarkedToday (markAttendance employee confidence f' w)
     = stateMarkedToday w ∪ {[ id employee ]}).
Proof.
  intros Herr. unfold markAttendance. rewrite Herr. simpl.
  repeat split; auto. intros f' ->. reflexivity.
Qed.

Lemma C6_witness :
  insertError (Scenario.seenInsertFails 0) = true /\
  stateMarkedToday
    (markAttendance Scenario.alice (Fin 100) (Scenario.seenInsertFails 0)
                    Scenario.start)
  = stateMarkedToday Scenario.start.
Proof.
  split; [reflexivity|].
  apply (C6_markedToday_unchanged_on_insert_error
           Scenario.alice (Fin 100) (Scenario.seenInsertFails 0)
           Scenario.start).
  reflexivity.
Defined.

(** The path of [detectAndMatch] that reaches the "already marked" guard. *)
Lemma detectAndMatch_accepted c f w descriptor m employee :
  ready f = true ->
  detection f = Some descriptor ->
  processLock w = false ->
  storedFaces c <> [] ->
  findBestMatch descriptor (storedFaces c) = Some m ->
  lt (distance m) MATCH_THRESHOLD = true ->
  employees c !! matchEmployeeId m = Some employee ->
  detectAndMatch c f w
  = let confidence := confidenceOf (distance m) in
    let w1 := setLastMatch (Some (employee, confidence))
                (setProcessLock true (setFaceDetected true w)) in
    setTimeout500
      (if decide (id employee ∈ markedToday c) then w1
       else markAttendance employee confidence f w1).
Proof.
  intros Hr Hd Hl Hs Hm Hlt He.
  assert (Hlen : (0 <? length (storedFaces c))%nat = true).
  { destruct (storedFaces c); [easy | reflexivity]. }
  unfold detectAndMatch, matchAndMark. rewrite Hr, Hd.
  cbn [setFaceDetected processLock]. rewrite Hl, Hlen.
  cbn [negb andb]. rewrite Hm, Hlt, He. reflexivity.
Qed.

Lemma confidenceOf_Fin (x : R) :
  confidenceOf (Fin x) = Fin (IZR (Int_part ((1 - x) * 100 + / 2))).
Proof. reflexivity. Qed.

Lemma confidenceOf_zero : confidenceOf (Fin 0) = Fin 100.
Proof.
  rewrite confidenceOf_Fin. do 2 f_equal. symmetry.
  apply Int_part_spec. lra.
Qed.

Lemma confidenceOf_far (x : R) :
  (1 <= x)%R -> exists z : Z, confidenceOf (Fin x) = Fin (IZR z) /\ (z <= 0)%Z.
Proof.
  intros Hx. rewrite confidenceOf_Fin. eexists. split; [reflexivity|].
  destruct (base_Int_part ((1 - x) * 100 + / 2)) as [Hle _].
  assert (Hlt : (IZR (Int_part ((1 - x) * 100 + / 2)) < IZR 1)%R) by lra.
  apply lt_IZR in Hlt. lia.
Qed.

(** C9. On an accepted match [detectAndMatch] reports, both on screen
    ([lastMatch]) and in the check-in it issues, the confidence
    [round((1 - distance) * 100)]; that value is 100 at distance 0 and at
    most 0 at any distance of 1 or more. *)
Theorem C9_confidence_is_round_of_one_minus_distance_times_100 :
  (forall c f w descriptor m employee,
      ready f = true ->
      detection f = Some descriptor ->
      processLock w = false ->
      storedFaces c <> [] ->
      findBestMatch descriptor (storedFaces c) = Some m ->
      lt (distance m) MATCH_THRESHOLD = true ->
      employees c !! matchEmployeeId m = Some employee ->
      lastMatch (detectAndMatch c f w)
        = Some (employee, round (mul (sub (Fin 1) (distance m)) (Fin 100))) /\
      (id employee ∉ markedToday c ->
       exists row,
         insertCalls (detectAndMatch c f w) = insertCalls w ++ [row] /\
         Attendance.confidence_score row
           = round (mul (sub (Fin 1) (distance m)) (Fin 100)))) /\
  confidenceOf (Fin 0) = Fin 100 /\
  (forall x : R, (1 <= x)%R ->
      exists z : Z, confidenceOf (Fin x) = Fin (IZR z) /\ (z <= 0)%Z).
Proof.
  split; [|split; [apply confidenceOf_zero | apply confidenceOf_far]].
  intros c f w descriptor m employee Hr Hd Hl Hs Hm Hlt He.
  rewrite (detectAndMatch_accepted c f w descriptor m employee) by assumption.
  cbv zeta. split.
  - destruct (decide (id employee ∈ markedToday c)); [reflexivity|].
    unfold markAttendance. destruct (insertError f); reflexivity.
  - intros Hnot. destruct (decide (id employee ∈ markedToday c)); [easy|].
    eexists. split.
    + unfold setTimeout500. simpl. rewrite markAttendance_insertCalls.
      reflexivity.
    + reflexivity.
Qed.

Lemma lt_zero_threshold : lt (Fin 0) MATCH_THRESHOLD = true.
Proof. unfold MATCH_THRESHOLD, lt. destruct (Rlt_dec 0 (/ 2)); [reflexivity | lra]. Qed.

(** The enrolled face of the scenario is matched at distance 0. *)
Lemma scenario_match :
  findBestMatch [0%R] Scenario.enrolled = Some (mkMatch "E1" (Fin 0)).
Proof.
  unfold findBestMatch, Scenario.enrolled. cbn [fold_left descriptors employeeId].
  unfold consider. now rewrite euclideanDistance_self.
Qed.

Lemma C9_witness :
  (ready (Scenario.seen 0) = true /\
   detection (Scenario.seen 0) = Some [0%R] /\
   processLock Scenario.start = false /\
   storedFaces (render Scenario.start) <> [] /\
   findBestMatch [0%R] (storedFaces (render Scenario.start))
     = Some (mkMatch "E1" (Fin 0)) /\
   lt (distance (mkMatch "E1" (Fin 0))) MATCH_THRESHOLD = true /\
   employees (render Scenario.start) !! "E1" = Some Scenario.alice) /\
  lastMatch (detectAndMatch (render Scenario.start) (Scenario.seen 0)
                            Scenario.start)
  = Some (Scenario.alice, round (mul (sub (Fin 1) (Fin 0)) (Fin 100))).
Proof.
  assert (H : ready (Scenario.seen 0) = true /\
              detection (Scenario.seen 0) = Some [0%R] /\
              processLock Scenario.start = false /\
              storedFaces (render Scenario.start) <> [] /\
              findBestMatch [0%R] (storedFaces (render Scenario.start))
                = Some (mkMatch "E1" (Fin 0)) /\
              lt (distance (mkMatch "E1" (Fin 0))) MATCH_THRESHOLD = true /\
              employees (render Scenario.start) !! "E1" = Some Scenario.alice).
  { repeat split; try reflexivity.
    - discriminate.
    - apply scenario_match.
    - apply lt_zero_threshold. }
  split; [exact H|].
  destruct H as (H1 & H2 & H3 & H4 & H5 & H6 & H7).
  exact (proj1 (proj1 C9_confidence_is_round_of_one_minus_distance_times_100
                  (render Scenario.start) (Scenario.seen 0) Scenario.start
                  [0%R] (mkMatch "E1" (Fin 0)) Scenario.alice
                  H1 H2 H3 H4 H5 H6 H7)).
Defined.

(** *** What the "already marked" guard reads *)

Lemma cooldown_unlocks w (n : nat) :
  timers w = S n ->
  processLock (cooldown w) = false /\
  timers (cooldown w) = n /\
  insertCalls (cooldown w) = insertCalls w /\
  attendance (cooldown w) = attendance w /\
  stateMarkedToday (cooldown w) = stateMarkedToday w.
Proof. intros H. unfold cooldown. rewrite H. repeat split. Qed.

(** A recognised, not-yet-captured identity whose insert succeeds: one
    insert is issued, one row is stored, the React state gains the
    identity, the lock is taken and a timer is pending. *)
Lemma tick_checks_in c f w descriptor m employee :
  ready f = true ->
  detection f = Some descriptor ->
  processLock w = false ->
  storedFaces c <> [] ->
  findBestMatch descriptor (storedFaces c) = Some m ->
  lt (distance m) MATCH_THRESHOLD = true ->
  employees c !! matchEmployeeId m = Some employee ->
  id employee ∉ markedToday c ->
  insertError f = false ->
  let w' := detectAndMatch c f w in
  let row := checkIn employee (confidenceOf (distance m))
                     (clockNow f) (clockWorkStart f) in
  insertCalls w' = insertCalls w ++ [row] /\
  attendance w' = attendance w ++ [row] /\
  stateMarkedToday w' = stateMarkedToday w ∪ {[ id employee ]} /\
  processLock w' = true /\
  timers w' = S (timers w).
Proof.
  intros Hr Hd Hl Hs Hm Hlt He Hnot Hok.
  cbv zeta.
  rewrite (detectAndMatch_accepted c f w descriptor m employee) by assumption.
  cbv zeta. destruct (decide (id employee ∈ markedToday c)); [easy|].
  unfold markAttendance. rewrite Hok. repeat split.
Qed.

(** The same frame with the insert failing: the insert is issued, no row
    is stored and the state is not extended. *)
Lemma tick_insert_fails c f w descriptor m employee :
  ready f = true ->
  detection f = Some descriptor ->
  processLock w = false ->
  storedFaces c <> [] ->
  findBestMatch descriptor (storedFaces c) = Some m ->
  lt (distance m) MATCH_THRESHOLD = true ->
  employees c !! matchEmployeeId m = Some employee ->
  id employee ∉ markedToday c ->
  insertError f = true ->
  let w' := detectAndMatch c f w in
  let row := checkIn employee (confidenceOf (distance m))
                     (clockNow f) (clockWorkStart f) in
  insertCalls w' = insertCalls w ++ [row] /\
  attendance w' = attendance w /\
  stateMarkedToday w' = stateMarkedToday w /\
  processLock w' = true /\
  timers w' = S (timers w).
Proof.
  intros Hr Hd Hl Hs Hm Hlt He Hnot Herr.
  cbv zeta.
  rewrite (detectAndMatch_accepted c f w descriptor m employee) by assumption.
  cbv zeta. destruct (decide (id employee ∈ markedToday c)); [easy|].
  unfold markAttendance. rewrite Herr. repeat split.
Qed.

(** After a failed insert the identity is submitted again on the next
    recognised frame, and that second insert is the one stored. *)
Lemma failed_insert_retried c f1 f2 w descriptor m employee :
  ready f1 = true -> ready f2 = true ->
  detection f1 = Some descriptor -> detection f2 = Some descriptor ->
  insertError f1 = true -> insertError f2 = false ->
  processLock w = false ->
  storedFaces c <> [] ->
  findBestMatch descriptor (storedFaces c) = Some m ->
  lt (distance m) MATCH_THRESHOLD = true ->
  employees c !! matchEmployeeId m = Some employee ->
  id employee ∉ markedToday c ->
  let w3 := run c w [Tick f1; Cooldown; Tick f2] in
  map Attendance.employee_id (insertCalls w3)
    = map Attendance.employee_id (insertCalls w)
      ++ [id employee; id employee] /\
  map Attendance.employee_id (attendance w3)
    = map Attendance.employee_id (attendance w) ++ [id employee].
Proof.
  intros Hr1 Hr2 Hd1 Hd2 Herr1 Hok2 Hl Hs Hm Hlt He Hnot.
  cbv zeta. unfold run. cbn [fold_left react].
  destruct (tick_insert_fails c f1 w descriptor m employee)
    as (Hc1 & Ha1 & _ & _ & Ht1); try assumption.
  set (w1 := detectAndMatch c f1 w) in *.
  destruct (cooldown_unlocks w1 (timers w) Ht1)
    as (Hl2 & _ & Hc2 & Ha2 & _).
  set (w2 := cooldown w1) in *.
  destruct (tick_checks_in c f2 w2 descriptor m employee)
    as (Hc3 & Ha3 & _); try assumption.
  rewrite Hc3, Ha3, Hc2, Ha2, Hc1, Ha1.
  rewrite <- !app_assoc, !map_app. split; reflexivity.
Qed.

(** The loop function [c] never sees the identities added to the state
    after it was created: recognised on two frames with a cooldown in
    between, an identity that [c] did not capture is inserted twice. *)
Lemma recognised_twice_inserted_twice c f1 f2 w descriptor m employee :
  ready f1 = true -> ready f2 = true ->
  detection f1 = Some descriptor -> detection f2 = Some descriptor ->
  insertError f1 = false -> insertError f2 = false ->
  processLock w = false -> timers w = 0%nat ->
  storedFaces c <> [] ->
  findBestMatch descriptor (storedFaces c) = Some m ->
  lt (distance m) MATCH_THRESHOLD = true ->
  employees c !! matchEmployeeId m = Some employee ->
  id employee ∉ markedToday c ->
  let w1 := run c w [Tick f1] in
  let w3 := run c w [Tick f1; Cooldown; Tick f2] in
  id employee ∈ stateMarkedToday w1 /\
  steps c w [Tick f1; Cooldown; Tick f2] w3 /\
  map Attendance.employee_id (insertCalls w3)
    = map Attendance.employee_id (insertCalls w)
      ++ [id employee; id employee] /\
  map Attendance.employee_id (attendance w3)
    = map Attendance.employee_id (attendance w)
      ++ [id employee; id employee].
Proof.
  intros Hr1 Hr2 Hd1 Hd2 Hok1 Hok2 Hl Ht Hs Hm Hlt He Hnot.
  cbv zeta. unfold run. cbn [fold_left react].
  destruct (tick_checks_in c f1 w descriptor m employee)
    as (Hc1 & Ha1 & Hs1 & Hl1 & Ht1); try assumption.
  set (w1 := detectAndMatch c f1 w) in *.
  destruct (cooldown_unlocks w1 (timers w) Ht1)
    as (Hl2 & Ht2 & Hc2 & Ha2 & Hs2).
  set (w2 := cooldown w1) in *.
  destruct (tick_checks_in c f2 w2 descriptor m employee)
    as (Hc3 & Ha3 & Hs3 & Hl3 & Ht3); try assumption.
  set (w3 := detectAndMatch c f2 w2) in *.
  split; [rewrite Hs1; apply elem_of_union_r, elem_of_singleton; reflexivity|].
  split.
  - eapply steps_cons; [apply step_tick|].
    eapply steps_cons; [apply step_cooldown; fold w1; lia|].
    eapply steps_cons; [apply step_tick|]. apply steps_nil.
  - rewrite Hc3, Ha3, Hc2, Ha2, Hc1, Ha1.
    rewrite <- !app_assoc, !map_app. split; reflexivity.
Qed.

(** One event adds at most one insert, and only for an identity outside
    the set the loop function captured. *)
Lemma react_insertCalls c w e :
  insertCalls (react c w e) = insertCalls w \/
  exists row,
    insertCalls (react c w e) = insertCalls w ++ [row] /\
    Attendance.employee_id row ∉ markedToday c.
Proof.
  destruct e as [f|]; simpl.
  - unfold detectAndMatch. destruct (ready f); [|now left].
    destruct (detection f) as [descriptor|]; [|now left].
    cbn [setFaceDetected processLock].
    destruct (negb (processLock w) && (0 <? length (storedFaces c))%nat);
      [|now left].
    unfold matchAndMark.
    destruct (findBestMatch descriptor (storedFaces c)) as [m|]; [|now left].
    destruct (lt (distance m) MATCH_THRESHOLD); [|now left].
    destruct (employees c !! matchEmployeeId m) as [employee|]; [|now left].
    destruct (decide (id employee ∈ markedToday c)) as [|Hnot]; [now left|].
    right. eexists. split.
    + unfold setTimeout500. cbn [insertCalls].
      rewrite markAttendance_insertCalls. reflexivity.
    + exact Hnot.
  - unfold cooldown. destruct (timers w); now left.
Qed.

(** An identity in the set captured at loop start is never submitted,
    however often it is recognised. *)
Lemma captured_never_inserted c (es : list Event) w :
  exists rows,
    insertCalls (run c w es) = insertCalls w ++ rows /\
    Forall (fun row => Attendance.employee_id row ∉ markedToday c) rows.
Proof.
  revert w. induction es as [|e es IH]; intros w.
  - exists []. split; [symmetry; apply app_nil_r | constructor].
  - unfold run. cbn [fold_left]. fold (run c (react c w e) es).
    destruct (IH (react c w e)) as (rows & Hrows & Hall).
    destruct (react_insertCalls c w e) as [Heq | (row & Heq & Hrow)].
    + exists rows. rewrite Hrows, Heq. auto.
    + exists (row :: rows). rewrite Hrows, Heq, <- app_assoc. auto.
Qed.

(** The loop function alone, run as if the page had its refs set: one
    enrolled employee, nobody marked when the function was created; the
    face is recognised at 08:00:00, the cooldown elapses, the face is
    recognised again at 08:00:01, both inserts succeed.  After the first
    frame the identity is in the [markedToday] state, and the same
    function still issues a second insert. *)
Lemma loop_function_recognised_twice_two_check_ins :
  let c := render Scenario.start in
  let w1 := run c Scenario.start [Tick (Scenario.seen (at_ 0 8 0 0))] in
  let w3 := run c Scenario.start Scenario.twice in
  steps c Scenario.start Scenario.twice w3 /\
  "E1" ∈ stateMarkedToday w1 /\
  map Attendance.employee_id (insertCalls w3) = ["E1"; "E1"] /\
  map Attendance.employee_id (attendance w3) = ["E1"; "E1"] /\
  map Attendance.date (attendance w3) = [0%Z; 0%Z].
Proof.
  cbv zeta.
  destruct (recognised_twice_inserted_twice
              (render Scenario.start)
              (Scenario.seen (at_ 0 8 0 0)) (Scenario.seen (at_ 0 8 0 1))
              Scenario.start [0%R] (mkMatch "E1" (Fin 0)) Scenario.alice)
    as (Hin & Hsteps & Hcalls & Hrows); try reflexivity.
  - discriminate.
  - apply scenario_match.
  - apply lt_zero_threshold.
  - cbn. set_solver.
  - repeat split; try assumption.
    unfold Scenario.twice, run. cbn [fold_left react].
    destruct (tick_checks_in (render Scenario.start)
                (Scenario.seen (at_ 0 8 0 0)) Scenario.start
                [0%R] (mkMatch "E1" (Fin 0)) Scenario.alice)
      as (_ & Ha1 & _ & _ & Ht1); try reflexivity;
      [discriminate | apply scenario_match | apply lt_zero_threshold
       | cbn; set_solver |].
    set (w1 := detectAndMatch _ _ Scenario.start) in *.
    destruct (cooldown_unlocks w1 _ Ht1) as (Hl2 & _ & _ & Ha2 & _).
    set (w2 := cooldown w1) in *.
    destruct (tick_checks_in (render Scenario.start)
                (Scenario.seen (at_ 0 8 0 1)) w2
                [0%R] (mkMatch "E1" (Fin 0)) Scenario.alice)
      as (_ & Ha3 & _); try reflexivity; try assumption;
      [discriminate | apply scenario_match | apply lt_zero_threshold
       | cbn; set_solver |].
    rewrite Ha3, Ha2, Ha1. reflexivity.
Qed.

End Loop.

(** ** The page around the loop *)

Section PageLoop.
Import JsNum FaceApi LocalTime LiveAttendance Startup AttendancePage.

Implicit Types (p : Page) (rows : list Attendance.Row).








End PageLoop.

(** ** The enrollment gate *)

Section Enrollment.
Import FaceApi FaceRegistration.

(** C7. With fewer than the required 5 captured descriptors a submission
    is rejected whatever the form holds and whatever the stores would
    answer: [handleSubmit] shows the insufficient-captures error and
    performs no employee query, no employee insert and no face-encoding
    save. *)
Theorem C7_submit_below_quota_rejected (s : Session) (r : Replies) :
  (length (capturedDescriptors s) < REQUIRED_CAPTURES)%nat ->
  REQUIRED_CAPTURES = 5%nat /\
  handleSubmit s r = [PreventDefault; Toast "Insufficient captures"] /\
  In (Toast "Insufficient captures") (handleSubmit s r) /\
  forallb (fun e => negb (touchesStore e)) (handleSubmit s r) = true.
Proof.
  intros Hlt. split; [reflexivity|].
  assert (E : handleSubmit s r = [PreventDefault; Toast "Insufficient captures"]).
  { unfold handleSubmit.
    destruct (Nat.ltb_spec (length (capturedDescriptors s)) REQUIRED_CAPTURES);
      [reflexivity | lia]. }
  rewrite E. split; [reflexivity|]. split; [simpl; auto | reflexivity].
Qed.

Lemma C7_witness :
  (length (capturedDescriptors Scenario.fourCaptures) < REQUIRED_CAPTURES)%nat /\
  REQUIRED_CAPTURES = 5%nat /\
  handleSubmit Scenario.fourCaptures Scenario.allGood
    = [PreventDefault; Toast "Insufficient captures"] /\
  In (Toast "Insufficient captures")
     (handleSubmit Scenario.fourCaptures Scenario.allGood) /\
  forallb (fun e => negb (touchesStore e))
          (handleSubmit Scenario.fourCaptures Scenario.allGood) = true.
Proof.
  assert (H : (length (capturedDescriptors Scenario.fourCaptures)
               < REQUIRED_CAPTURES)%nat) by (vm_compute; lia).
  split; [exact H|].
  exact (C7_submit_below_quota_rejected
           Scenario.fourCaptures Scenario.allGood H).
Defined.

(** With the quota reached and a valid form the stores are consulted. *)
Example submit_at_quota :
  handleSubmit (mkSession [[0%R]; [0%R]; [0%R]; [0%R]; [0%R]]
                          (mkFormData "Alice" "A-001" "IT" "" ""))
               (mkReplies false (Some "E1") false)
  = [PreventDefault; SetIsProcessing true; SelectEmployee "A-001";
     InsertEmployee "Alice" "A-001" "IT" None None;
     SaveFaceEncoding "E1" [[0%R]; [0%R]; [0%R]; [0%R]; [0%R]];
     Toast "Registration successful!"; StopCamera; Navigate "/employees";
     SetIsProcessing false].
Proof. reflexivity. Qed.

End Enrollment.

(** * Further properties of the code *)

(** ** euclideanDistance as a metric *)

Section Metric.
Import JsNum FaceApi.
Local Open Scope R_scope.

Lemma loop_NaN (a b : Descriptor) (l : list nat) :
  fold_left (accumulate a b) l NaN = NaN.
Proof. induction l as [|i l IH]; [reflexivity | exact IH]. Qed.

(** A stored array shorter than the live one makes the sum [NaN]. *)
Lemma loop_short (a b : Descriptor) (s : number) :
  (length b < length a)%nat ->
  fold_left (accumulate a b) (seq 0 (length a)) s = NaN.
Proof.
  revert b s. induction a as [|x a IH]; intros b s Hlen; [simpl in Hlen; lia|].
  cbn [length seq fold_left]. rewrite <- seq_shift. destruct b as [|y b].
  - replace (accumulate (x :: a) [] s 0%nat) with NaN
      by (unfold accumulate; simpl; now destruct s).
    apply loop_NaN.
  - rewrite accumulate_shift. apply IH. simpl in Hlen. lia.
Qed.

Lemma sumSquares_app_r (a b extra : Descriptor) :
  (length a <= length b)%nat -> sumSquares a (b ++ extra) = sumSquares a b.
Proof.
  revert b. induction a as [|x a IH]; intros [|y b] Hlen; simpl in *;
    try reflexivity; try lia.
  rewrite IH by lia. reflexivity.
Qed.

Lemma euclideanDistance_nonneg (a b : Descriptor) (x : R) :
  euclideanDistance a b = Fin x -> 0 <= x.
Proof.
  intros H. destruct (Nat.lt_ge_cases (length b) (length a)) as [Hlt|Hge].
  - unfold euclideanDistance in H. rewrite loop_short in H by assumption.
    discriminate.
  - rewrite euclideanDistance_Fin in H by assumption.
    inversion H. apply sqrt_pos.
Qed.

(** X1. On arrays whose entries are all finite numbers (the entries of a
    [Descriptor] are reals: it holds no [NaN] and no [Infinity]),
    [euclideanDistance arr1 arr2] is [NaN] exactly when [arr2] is shorter
    than [arr1]; whenever it is a number it is not negative; and entries
    of [arr2] beyond the length of [arr1] are never read. *)
Theorem euclideanDistance_NaN_iff_arr2_shorter (a b : Descriptor) :
  (euclideanDistance a b = NaN <-> (length b < length a)%nat) /\
  (forall x, euclideanDistance a b = Fin x -> 0 <= x) /\
  (forall extra, (length a <= length b)%nat ->
                 euclideanDistance a (b ++ extra) = euclideanDistance a b).
Proof.
  split; [|split].
  - split.
    + intros H. destruct (Nat.lt_ge_cases (length b) (length a)) as [|Hge];
        [assumption|].
      rewrite euclideanDistance_Fin in H by assumption. discriminate.
    + intros Hlt. unfold euclideanDistance. now rewrite loop_short.
  - intros x. apply euclideanDistance_nonneg.
  - intros extra Hlen.
    rewrite !euclideanDistance_Fin by (rewrite ?length_app; lia).
    now rewrite sumSquares_app_r.
Qed.

(** X2. Between embeddings of the same length the distance is 0 exactly
    when the two embeddings are equal. *)
Theorem euclideanDistance_zero_iff_equal (a b : Descriptor) :
  length a = length b ->
  (euclideanDistance a b = Fin 0 <-> a = b).
Proof.
  intros Hlen. split.
  - intros H. symmetry. apply euclideanDistance_zero; [lia | assumption].
  - intros ->. apply euclideanDistance_self.
Qed.

Lemma euclideanDistance_zero_iff_equal_witness :
  length [1; 2] = length [1; 3] /\
  (euclideanDistance [1; 2] [1; 3] = Fin 0 <-> [1; 2] = [1; 3]).
Proof.
  split; [reflexivity|].
  apply (euclideanDistance_zero_iff_equal [1; 2] [1; 3]). reflexivity.
Defined.

(** Cauchy-Schwarz, in the form the triangle inequality needs: the sum of
    squares from [a] to [c] is the two partial sums plus twice a cross term
    whose square is bounded by their product. *)
Lemma sumSquares_cross (a b c : Descriptor) :
  length a = length b -> length b = length c ->
  exists p,
    sumSquares a c = sumSquares a b + sumSquares b c + 2 * p /\
    p * p <= sumSquares a b * sumSquares b c.
Proof.
  revert b c. induction a as [|x a IH]; intros [|y b] [|z c] Hab Hbc;
    simpl in *; try discriminate.
  - exists 0. split; lra.
  - destruct (IH b c) as (p & Hsum & Hp); [lia | lia |].
    pose proof (sumSquares_nonneg a b) as HA.
    pose proof (sumSquares_nonneg b c) as HB.
    set (A := sumSquares a b) in *. set (B := sumSquares b c) in *.
    set (u := x - y). set (v := y - z).
    exists (u * v + p). split.
    + rewrite Hsum. unfold u, v. ring.
    + assert (Hcross : 2 * (u * v * p) <= u * u * B + v * v * A).
      { assert (Hsq : (2 * (u * v * p)) * (2 * (u * v * p))
                      <= (u * u * B + v * v * A) * (u * u * B + v * v * A)).
        { assert (H1 : 0 <= (u * u * B - v * v * A) * (u * u * B - v * v * A))
            by apply Rle_0_sqr.
          assert (H2 : (u * v) * (u * v) * (p * p)
                       <= (u * v) * (u * v) * (A * B)).
          { apply Rmult_le_compat_l; [apply Rle_0_sqr | assumption]. }
          nra. }
        assert (H0 : 0 <= u * u * B + v * v * A).
        { pose proof (Rle_0_sqr u). pose proof (Rle_0_sqr v).
          unfold Rsqr in *. nra. }
        nra. }
      nra.
Qed.

(** X3. The triangle inequality, in exact real arithmetic: for three
    embeddings of the same length, the distance from the first to the
    third is at most the sum of the distances through the second.  (The
    rounded doubles of a running [euclideanDistance] can exceed the bound
    in the last place; the statement is about the sums and square roots
    taken exactly.) *)
Theorem euclideanDistance_triangle (a b c : Descriptor) :
  length a = length b -> length b = length c ->
  exists x y z,
    euclideanDistance a c = Fin x /\
    euclideanDistance a b = Fin y /\
    euclideanDistance b c = Fin z /\
    x <= y + z.
Proof.
  intros Hab Hbc.
  rewrite !euclideanDistance_Fin by lia.
  do 3 eexists. repeat split.
  destruct (sumSquares_cross a b c Hab Hbc) as (p & Hsum & Hp).
  pose proof (sumSquares_nonneg a b) as HA.
  pose proof (sumSquares_nonneg b c) as HB.
  pose proof (sumSquares_nonneg a c) as HC.
  set (A := sumSquares a b) in *. set (B := sumSquares b c) in *.
  set (C := sumSquares a c) in *.
  pose proof (sqrt_pos A) as HsA. pose proof (sqrt_pos B) as HsB.
  pose proof (sqrt_sqrt A HA) as EA. pose proof (sqrt_sqrt B HB) as EB.
  assert (Hp' : p <= R_sqrt.sqrt A * R_sqrt.sqrt B).
  { assert (0 <= R_sqrt.sqrt A * R_sqrt.sqrt B) by nra.
    assert ((R_sqrt.sqrt A * R_sqrt.sqrt B) * (R_sqrt.sqrt A * R_sqrt.sqrt B)
            = A * B) by nra.
    nra. }
  rewrite <- (sqrt_square (R_sqrt.sqrt A + R_sqrt.sqrt B)) by lra.
  apply sqrt_le_1_alt. nra.
Qed.

Lemma euclideanDistance_triangle_witness :
  (length [0; 0] = length [3; 0] /\ length [3; 0] = length [3; 4]) /\
  exists x y z,
    euclideanDistance [0; 0] [3; 4] = Fin x /\
    euclideanDistance [0; 0] [3; 0] = Fin y /\
    euclideanDistance [3; 0] [3; 4] = Fin z /\
    x <= y + z.
Proof.
  split; [split; reflexivity|].
  apply (euclideanDistance_triangle [0; 0] [3; 0] [3; 4]); reflexivity.
Defined.

End Metric.

(** ** More on findBestMatch *)

Section MatcherMore.
Import JsNum FaceApi LiveAttendance.
Local Open Scope R_scope.

Implicit Types (d e : Descriptor) (l : list (string * Descriptor))
               (st : list StoredFace) (m : Match).

(** Whatever the loop returns is the running best it started from or a
    pair it visited. *)
Lemma scan_result_visited d l (acc : option Match) m :
  scan d l acc = Some m ->
  acc = Some m \/
  exists e, In (matchEmployeeId m, e) l /\ euclideanDistance d e = distance m.
Proof.
  revert acc. induction l as [|[i e] l IH]; intros acc H.
  - left. exact H.
  - rewrite scan_cons in H. destruct (IH _ H) as [Hc | (e' & Hin & He')].
    + unfold consider in Hc. cbn [fst snd] in Hc.
      destruct acc as [b|].
      * destruct (lt (euclideanDistance d e) (distance b)).
        -- inversion Hc; subst. right. exists e. simpl. auto.
        -- now left.
      * inversion Hc; subst. right. exists e. simpl. auto.
    + right. exists e'. simpl. auto.
Qed.

(** X4. Whatever the lengths of the stored arrays, a match returned by
    [findBestMatch] names an identity of the reference set together with
    the distance to one of that identity's own descriptors; the distance is
    [NaN] or a non-negative number. *)
Theorem findBestMatch_result_is_a_stored_pair d st m :
  findBestMatch d st = Some m ->
  (exists s e, In s st /\ employeeId s = matchEmployeeId m /\
               In e (descriptors s) /\
               euclideanDistance d e = distance m) /\
  (distance m = NaN \/ exists x, distance m = Fin x /\ 0 <= x).
Proof.
  rewrite findBestMatch_scan. intros H.
  destruct (scan_result_visited d (pairs st) None m H) as [|(e & Hin & He)];
    [discriminate|].
  split.
  - apply in_pairs in Hin as (s & Hs & Hid & Hin). eauto 6.
  - destruct (distance m) as [|x] eqn:Hd; [now left|]. right. exists x.
    split; [reflexivity|].
    now apply (euclideanDistance_nonneg d e).
Qed.

Lemma findBestMatch_result_is_a_stored_pair_witness :
  findBestMatch Scenario.probe Scenario.twins = Some (mkMatch "Y" (Fin 0)) /\
  exists s e, In s Scenario.twins /\
              employeeId s = matchEmployeeId (mkMatch "Y" (Fin 0)) /\
              In e (descriptors s) /\
              euclideanDistance Scenario.probe e
              = distance (mkMatch "Y" (Fin 0)).
Proof.
  assert (H : findBestMatch Scenario.probe Scenario.twins
              = Some (mkMatch "Y" (Fin 0))).
  { unfold findBestMatch, Scenario.twins, Scenario.probe.
    cbn [fold_left descriptors employeeId]. unfold consider.
    rewrite euclideanDistance_self. simpl.
    destruct (Rlt_dec 0 0); [lra | reflexivity]. }
  split; [exact H|].
  exact (proj1 (findBestMatch_result_is_a_stored_pair
                  Scenario.probe Scenario.twins (mkMatch "Y" (Fin 0)) H)).
Defined.

Lemma pairs_app st st' : pairs (st ++ st') = pairs st ++ pairs st'.
Proof. unfold pairs. apply flat_map_app. Qed.

(** Scanning on from a running best with a numeric distance: it is kept,
    or replaced by a visited pair that is strictly closer. *)
Lemma scan_from_best d l (b : Match) (x : R) :
  Forall (fun p => length (snd p) = length d) l ->
  distance b = Fin x ->
  exists m,
    scan d l (Some b) = Some m /\
    (m = b \/
     (lt_strict (distance m) (distance b) /\
      exists e, In (matchEmployeeId m, e) l /\
                euclideanDistance d e = distance m)).
Proof.
  revert b x. induction l as [|[i e] l IH]; intros b x Hlen Hb.
  - exists b. split; [reflexivity | now left].
  - apply Forall_cons in Hlen as [He Hl]. cbn [snd] in He.
    rewrite scan_cons. unfold consider. cbn [fst snd].
    assert (Ee : euclideanDistance d e = Fin (R_sqrt.sqrt (sumSquares d e)))
      by (apply euclideanDistance_Fin; lia).
    rewrite Hb, Ee.
    destruct (lt _ _) eqn:Hlt.
    + apply lt_Fin_true in Hlt.
      destruct (IH (mkMatch i (Fin (R_sqrt.sqrt (sumSquares d e)))) _ Hl eq_refl)
        as (m & Hm & Hcase).
      exists m. split; [exact Hm|]. right.
      destruct Hcase as [-> | (Hs & e' & Hin & He')].
      * split; [simpl; exact Hlt|].
        exists e. simpl. split; [now left | exact Ee].
      * split.
        -- simpl in Hs. destruct (distance m); simpl in *; [easy|lra].
        -- exists e'. simpl. auto.
    + destruct (IH b x Hl Hb) as (m & Hm & Hcase).
      exists m. split; [exact Hm|].
      destruct Hcase as [-> | (Hs & e' & Hin & He')]; [now left|].
      right. split; [rewrite Hb in Hs; exact Hs|]. exists e'. simpl. auto.
Qed.

(** X5. Enrolling further identities after the existing ones never makes
    the best match worse: the match found on the longer reference set is
    the old one, or a pair of the added identities that is strictly closer. *)
Theorem findBestMatch_more_faces_never_farther d st st' m :
  sameLength d (st ++ st') ->
  findBestMatch d st = Some m ->
  exists m',
    findBestMatch d (st ++ st') = Some m' /\
    le (distance m') (distance m) /\
    (m' = m \/
     (lt_strict (distance m') (distance m) /\
      exists s e, In s st' /\ employeeId s = matchEmployeeId m' /\
                  In e (descriptors s) /\
                  euclideanDistance d e = distance m')).
Proof.
  unfold sameLength. rewrite pairs_app, Forall_app. intros [Hst Hst'] Hm.
  rewrite findBestMatch_scan in *. rewrite pairs_app, scan_app, Hm.
  destruct (scan_result_visited d (pairs st) None m Hm) as [|(e & Hin & He)];
    [discriminate|].
  assert (Hx : distance m = Fin (R_sqrt.sqrt (sumSquares d e))).
  { rewrite <- He. apply euclideanDistance_Fin.
    apply list_elem_of_In in Hin.
    apply (proj1 (Forall_forall _ _) Hst) in Hin. simpl in Hin. lia. }
  destruct (scan_from_best d (pairs st') m _ Hst' Hx) as (m' & Hm' & Hcase).
  exists m'. split; [exact Hm'|].
  destruct Hcase as [-> | (Hs & e' & Hin' & He')].
  - split; [rewrite Hx; simpl; lra | now left].
  - split.
    + destruct (distance m'), (distance m); simpl in *; try easy. lra.
    + right. split; [exact Hs|].
      apply in_pairs in Hin' as (s & Hs' & Hid & Hin'). eauto 6.
Qed.

Lemma findBestMatch_more_faces_never_farther_witness :
  (sameLength Scenario.probe (Scenario.twins ++ Scenario.gallery) /\
   findBestMatch Scenario.probe Scenario.twins = Some (mkMatch "Y" (Fin 0))) /\
  exists m',
    findBestMatch Scenario.probe (Scenario.twins ++ Scenario.gallery)
      = Some m' /\
    le (distance m') (distance (mkMatch "Y" (Fin 0))).
Proof.
  assert (H1 : sameLength Scenario.probe (Scenario.twins ++ Scenario.gallery))
    by (repeat constructor).
  assert (H2 : findBestMatch Scenario.probe Scenario.twins
               = Some (mkMatch "Y" (Fin 0))).
  { unfold findBestMatch, Scenario.twins, Scenario.probe.
    cbn [fold_left descriptors employeeId]. unfold consider.
    rewrite euclideanDistance_self. simpl.
    destruct (Rlt_dec 0 0); [lra | reflexivity]. }
  split; [split; assumption|].
  destruct (findBestMatch_more_faces_never_farther
              Scenario.probe Scenario.twins Scenario.gallery
              (mkMatch "Y" (Fin 0)) H1 H2) as (m' & Hm' & Hle & _).
  exists m'. split; assumption.
Defined.

(** X6. With embeddings of one length, the match passes the acceptance test
    [match && match.distance < MATCH_THRESHOLD] of [detectAndMatch] exactly
    when some stored descriptor of some identity lies closer than the
    threshold to the live one. *)
Theorem accepted_iff_some_descriptor_within_threshold d st :
  sameLength d st ->
  ((exists m, findBestMatch d st = Some m /\
              lt (distance m) MATCH_THRESHOLD = true) <->
   (exists s e, In s st /\ In e (descriptors s) /\
                lt (euclideanDistance d e) MATCH_THRESHOLD = true)).
Proof.
  intros Hlen. split.
  - intros (m & Hm & Hlt).
    rewrite findBestMatch_scan in Hm.
    destruct (scan_result_visited d (pairs st) None m Hm) as [|(e & Hin & He)];
      [discriminate|].
    apply in_pairs in Hin as (s & Hs & _ & Hin).
    exists s, e. rewrite He. auto.
  - intros (s & e & Hs & He & Hlt).
    assert (Hin : In (employeeId s, e) (pairs st)) by (apply in_pairs; eauto).
    assert (Hne : pairs st <> []) by (intros E; rewrite E in Hin; easy).
    destruct (scan_firstMinimum d (pairs st) Hlen Hne)
      as (m & Hm & _ & _ & _ & _ & Hmin & _).
    exists m. split; [now rewrite findBestMatch_scan|].
    apply list_elem_of_In, list_elem_of_lookup_1 in Hin as [j Hj].
    specialize (Hmin j _ Hj). cbn [snd] in Hmin.
    unfold MATCH_THRESHOLD in *.
    destruct (distance m), (euclideanDistance d e); simpl in *; try easy.
    apply lt_Fin_true. apply lt_Fin_true in Hlt. lra.
Qed.

Lemma accepted_iff_some_descriptor_within_threshold_witness :
  sameLength Scenario.probe Scenario.gallery /\
  ((exists m, findBestMatch Scenario.probe Scenario.gallery = Some m /\
              lt (distance m) MATCH_THRESHOLD = true) <->
   (exists s e, In s Scenario.gallery /\ In e (descriptors s) /\
                lt (euclideanDistance Scenario.probe e) MATCH_THRESHOLD = true)).
Proof.
  assert (H : sameLength Scenario.probe Scenario.gallery)
    by (repeat constructor).
  split; [exact H|].
  exact (accepted_iff_some_descriptor_within_threshold
           Scenario.probe Scenario.gallery H).
Defined.

End MatcherMore.

(** ** More on the recognition loop *)

Section LoopMore.
Import JsNum FaceApi LocalTime LiveAttendance Startup.

Implicit Types (c : Closure) (w : World) (f : Frame) (e : Event).

(** The confidence of an accepted distance is a whole percentage between
    50 and 100. *)
Lemma confidenceOf_accepted (x : R) :
  (0 <= x)%R -> (x < / 2)%R ->
  exists z : Z, confidenceOf (Fin x) = Fin (IZR z) /\ (50 <= z <= 100)%Z.
Proof.
  intros H0 Hx. rewrite confidenceOf_Fin. eexists. split; [reflexivity|].
  destruct (base_Int_part ((1 - x) * 100 + / 2)) as [Hle Hgt].
  set (z := Int_part ((1 - x) * 100 + / 2)) in *. split.
  - assert (H : (IZR 49 < IZR z)%R) by lra. apply lt_IZR in H. lia.
  - assert (H : (IZR z < IZR 101)%R) by lra. apply lt_IZR in H. lia.
Qed.

Lemma app_singleton_neq {A : Type} (l : list A) (x : A) : l ++ [x] <> l.
Proof.
  intros H. apply (f_equal length) in H. rewrite length_app in H.
  simpl in H. lia.
Qed.

(** A run of [detectAndMatch] that issues an insert went through every
    test of the accepted path. *)
Lemma tick_insert_inv c f w :
  insertCalls (detectAndMatch c f w) <> insertCalls w ->
  exists descriptor m employee,
    ready f = true /\
    detection f = Some descriptor /\
    processLock w = false /\
    findBestMatch descriptor (storedFaces c) = Some m /\
    lt (distance m) MATCH_THRESHOLD = true /\
    employees c !! matchEmployeeId m = Some employee /\
    (id employee ∉ markedToday c) /\
    insertCalls (detectAndMatch c f w)
      = insertCalls w
        ++ [checkIn employee (confidenceOf (distance m))
                    (clockNow f) (clockWorkStart f)].
Proof.
  unfold detectAndMatch. destruct (ready f); [|easy].
  destruct (detection f) as [descriptor|]; [|easy].
  cbn [setFaceDetected processLock].
  destruct (processLock w); [easy|]. cbn [negb andb].
  destruct (0 <? length (storedFaces c))%nat; [|easy].
  unfold matchAndMark.
  destruct (findBestMatch descriptor (storedFaces c)) as [m|] eqn:Hm; [|easy].
  destruct (lt (distance m) MATCH_THRESHOLD) eqn:Hlt; [|easy].
  destruct (employees c !! matchEmployeeId m) as [employee|] eqn:He; [|easy].
  destruct (decide (id employee ∈ markedToday c)) as [|Hnot]; [easy|].
  intros _. exists descriptor, m, employee.
  repeat split; try assumption.
  unfold setTimeout500. cbn [insertCalls].
  now rewrite markAttendance_insertCalls.
Qed.

(** X7. The loop issues an insert only for an accepted match: the frame
    showed a face, the lock was free, [findBestMatch] returned an identity
    closer than the threshold that is a key of the employee map and outside
    the captured [markedToday]; the row carries that employee's id and a
    whole-number confidence between 50 and 100. *)
Theorem insert_only_for_accepted_match_with_confidence_50_to_100 c f w :
  insertCalls (detectAndMatch c f w) <> insertCalls w ->
  exists descriptor m employee (z : Z),
    ready f = true /\
    detection f = Some descriptor /\
    processLock w = false /\
    findBestMatch descriptor (storedFaces c) = Some m /\
    lt (distance m) MATCH_THRESHOLD = true /\
    employees c !! matchEmployeeId m = Some employee /\
    (id employee ∉ markedToday c) /\
    insertCalls (detectAndMatch c f w)
      = insertCalls w
        ++ [checkIn employee (Fin (IZR z)) (clockNow f) (clockWorkStart f)] /\
    (50 <= z <= 100)%Z.
Proof.
  intros Hne.
  destruct (tick_insert_inv c f w Hne)
    as (descriptor & m & employee & Hr & Hd & Hl & Hm & Hlt & He & Hnot & Hc).
  pose proof Hm as Hscan. rewrite findBestMatch_scan in Hscan.
  destruct (scan_result_visited descriptor (pairs (storedFaces c)) None m Hscan)
    as [|(e0 & _ & He0)]; [discriminate|].
  destruct (distance m) as [|x] eqn:Hx; [discriminate|].
  apply euclideanDistance_nonneg in He0.
  pose proof Hlt as Hlt'. unfold MATCH_THRESHOLD in Hlt'.
  apply lt_Fin_true in Hlt'.
  destruct (confidenceOf_accepted x He0 Hlt') as (z & Hz & Hrange).
  exists descriptor, m, employee, z. rewrite Hx, <- Hz.
  repeat split; try assumption; lia.
Qed.

Lemma insert_only_for_accepted_match_with_confidence_50_to_100_witness :
  insertCalls (detectAndMatch (render Scenario.start) (Scenario.seen 0)
                              Scenario.start)
    <> insertCalls Scenario.start /\
  exists descriptor m employee (z : Z),
    ready (Scenario.seen 0) = true /\
    detection (Scenario.seen 0) = Some descriptor /\
    processLock Scenario.start = false /\
    findBestMatch descriptor (storedFaces (render Scenario.start)) = Some m /\
    lt (distance m) MATCH_THRESHOLD = true /\
    employees (render Scenario.start) !! matchEmployeeId m = Some employee /\
    (id employee ∉ markedToday (render Scenario.start)) /\
    insertCalls (detectAndMatch (render Scenario.start) (Scenario.seen 0)
                                Scenario.start)
      = insertCalls Scenario.start
        ++ [checkIn employee (Fin (IZR z)) (clockNow (Scenario.seen 0))
                    (clockWorkStart (Scenario.seen 0))] /\
    (50 <= z <= 100)%Z.
Proof.
  assert (H : insertCalls (detectAndMatch (render Scenario.start)
                             (Scenario.seen 0) Scenario.start)
              <> insertCalls Scenario.start).
  { destruct (tick_checks_in (render Scenario.start) (Scenario.seen 0)
                Scenario.start [0%R] (mkMatch "E1" (Fin 0)) Scenario.alice)
      as (Hc & _); try reflexivity.
    - discriminate.
    - exact scenario_match.
    - exact lt_zero_threshold.
    - cbn. set_solver.
    - rewrite Hc. apply app_singleton_neq. }
  split; [exact H|].
  exact (insert_only_for_accepted_match_with_confidence_50_to_100
           (render Scenario.start) (Scenario.seen 0) Scenario.start H).
Defined.

(** What a run of [detectAndMatch] does to the lock: nothing, or it takes
    the free lock, arms one timer and issues at most one insert. *)
Lemma tick_lock c f w :
  (insertCalls (detectAndMatch c f w) = insertCalls w /\
   processLock (detectAndMatch c f w) = processLock w /\
   timers (detectAndMatch c f w) = timers w /\
   recentAttendance (detectAndMatch c f w) = recentAttendance w) \/
  (processLock w = false /\
   processLock (detectAndMatch c f w) = true /\
   timers (detectAndMatch c f w) = S (timers w) /\
   (length (insertCalls (detectAndMatch c f w))
    <= S (length (insertCalls w)))%nat /\
   (recentAttendance (detectAndMatch c f w) = recentAttendance w \/
    (length (recentAttendance (detectAndMatch c f w)) <= 10)%nat)).
Proof.
  unfold detectAndMatch. destruct (ready f); [|now left].
  destruct (detection f) as [descriptor|]; [|now left].
  cbn [setFaceDetected processLock].
  destruct (processLock w) eqn:Hl; [now left|]. cbn [negb andb].
  destruct (0 <? length (storedFaces c))%nat; [|now left].
  right. split; [reflexivity|].
  unfold matchAndMark.
  destruct (findBestMatch descriptor (storedFaces c)) as [m|];
    [|cbn; repeat split; auto; lia].
  destruct (lt (distance m) MATCH_THRESHOLD);
    [|cbn; repeat split; auto; lia].
  destruct (employees c !! matchEmployeeId m) as [employee|];
    [|cbn; repeat split; auto; lia].
  destruct (decide (id employee ∈ markedToday c));
    [cbn; repeat split; auto; lia|].
  unfold markAttendance. destruct (insertError f); cbn;
    rewrite ?length_app; cbn; repeat split; auto; try lia.
  right. rewrite length_take. lia.
Qed.

(** X8. Rate limit: over any sequence of events the loop issues at most
    one insert per cooldown that fires, plus one if the lock was free at
    the start. *)
Theorem at_most_one_insert_per_cooldown c (es : list Event) w :
  (length (insertCalls (run c w es))
   <= length (insertCalls w) + (if processLock w then 0 else 1)
      + cooldowns es)%nat.
Proof.
  revert w. induction es as [|e es IH]; intros w.
  - simpl. lia.
  - unfold run. cbn [fold_left]. fold (run c (react c w e) es).
    specialize (IH (react c w e)). destruct e as [f|]; cbn [react cooldowns] in *.
    + destruct (tick_lock c f w) as [(Hc & Hl & _) | (Hl & Hl' & _ & Hc & _)].
      * rewrite Hc, Hl in IH. exact IH.
      * rewrite Hl' in IH. rewrite Hl. lia.
    + assert (Hc : insertCalls (cooldown w) = insertCalls w)
        by (unfold cooldown; now destruct (timers w)).
      rewrite Hc in IH.
      destruct (processLock (cooldown w)), (processLock w); lia.
Qed.

(** The lock is held exactly while one release timer is pending. *)
Lemma lock_timer_step c w e :
  (timers w <= 1)%nat -> (processLock w = true <-> timers w = 1%nat) ->
  (timers (react c w e) <= 1)%nat /\
  (processLock (react c w e) = true <-> timers (react c w e) = 1%nat).
Proof.
  intros Hle Hiff. destruct e as [f|]; cbn [react].
  - destruct (tick_lock c f w) as [(_ & Hl & Ht & _) | (Hl & Hl' & Ht & _)].
    + rewrite Hl, Ht. auto.
    + assert (timers w = 0%nat).
      { destruct (timers w) as [|[|n]]; [reflexivity | | lia].
        rewrite (proj2 Hiff eq_refl) in Hl. discriminate. }
      rewrite Hl', Ht. split; [lia | split; intros; [lia | reflexivity]].
  - unfold cooldown. destruct (timers w) as [|n] eqn:Ht.
    + rewrite Ht. auto.
    + cbn. split; [lia|]. split; [discriminate | lia].
Qed.

(** X9. Started with the lock free and no timer pending, the loop keeps at
    most one release timer pending, and the lock is held exactly while that
    timer is pending: a held lock is always released by the next cooldown. *)
Theorem lock_held_iff_one_timer_pending c (es : list Event) w :
  processLock w = false -> timers w = 0%nat ->
  (timers (run c w es) <= 1)%nat /\
  (processLock (run c w es) = true <-> timers (run c w es) = 1%nat) /\
  (processLock (run c w es) = true ->
   processLock (run c w (es ++ [Cooldown])) = false).
Proof.
  intros Hl Ht.
  assert (Hinv : (timers (run c w es) <= 1)%nat /\
                 (processLock (run c w es) = true
                  <-> timers (run c w es) = 1%nat)).
  { assert (H0 : (timers w <= 1)%nat /\
                 (processLock w = true <-> timers w = 1%nat)).
    { rewrite Hl, Ht. split; [lia | split; [discriminate | lia]]. }
    clear Hl Ht. revert w H0. induction es as [|e es IH]; intros w H0.
    - exact H0.
    - unfold run. cbn [fold_left]. apply IH.
      destruct H0. now apply lock_timer_step. }
  destruct Hinv as [Hle Hiff]. split; [exact Hle|]. split; [exact Hiff|].
  intros Hheld. unfold run. rewrite fold_left_app. cbn [fold_left react].
  fold (run c w es). apply Hiff in Hheld. unfold cooldown. now rewrite Hheld.
Qed.

Lemma lock_held_iff_one_timer_pending_witness :
  (processLock Scenario.start = false /\ timers Scenario.start = 0%nat) /\
  (timers (run (render Scenario.start) Scenario.start Scenario.twice) <= 1)%nat.
Proof.
  split; [split; reflexivity|].
  apply (lock_held_iff_one_timer_pending
           (render Scenario.start) Scenario.twice Scenario.start);
    reflexivity.
Defined.

(** X10. The list of recent check-ins never grows beyond 10 entries. *)
Theorem recentAttendance_at_most_10 c (es : list Event) w :
  (length (recentAttendance w) <= 10)%nat ->
  (length (recentAttendance (run c w es)) <= 10)%nat.
Proof.
  revert w. induction es as [|e es IH]; intros w Hw; [exact Hw|].
  unfold run. cbn [fold_left]. apply IH.
  destruct e as [f|]; cbn [react].
  - destruct (tick_lock c f w)
      as [(_ & _ & _ & Hr) | (_ & _ & _ & _ & [Hr | Hr])].
    + now rewrite Hr.
    + now rewrite Hr.
    + exact Hr.
  - unfold cooldown. now destruct (timers w).
Qed.

Lemma recentAttendance_at_most_10_witness :
  (length (recentAttendance Scenario.start) <= 10)%nat /\
  (length (recentAttendance
             (run (render Scenario.start) Scenario.start Scenario.twice))
   <= 10)%nat.
Proof.
  assert (H : (length (recentAttendance Scenario.start) <= 10)%nat)
    by (simpl; lia).
  split; [exact H|].
  exact (recentAttendance_at_most_10
           (render Scenario.start) Scenario.twice Scenario.start H).
Defined.

(** With nothing to match against, or nobody to match to, no event changes
    the insert log or the table. *)
Lemma react_no_reference c w e :
  storedFaces c = [] \/ employees c = ∅ ->
  insertCalls (react c w e) = insertCalls w /\
  attendance (react c w e) = attendance w.
Proof.
  intros Hc. destruct e as [f|]; cbn [react].
  - unfold detectAndMatch. destruct (ready f); [|easy].
    destruct (detection f) as [descriptor|]; [|easy].
    cbn [setFaceDetected processLock].
    destruct (negb (processLock w) && (0 <? length (storedFaces c))%nat)
      eqn:Hgo; [|easy].
    unfold matchAndMark. destruct Hc as [Hs | Hs].
    + rewrite Hs in Hgo. cbn in Hgo. rewrite andb_false_r in Hgo.
      discriminate.
    + destruct (findBestMatch descriptor (storedFaces c)) as [m|]; [|easy].
      destruct (lt (distance m) MATCH_THRESHOLD); [|easy].
      rewrite Hs, lookup_empty. easy.
  - unfold cooldown. now destruct (timers w).
Qed.

Lemma run_no_reference c (es : list Event) w :
  storedFaces c = [] \/ employees c = ∅ ->
  insertCalls (run c w es) = insertCalls w /\
  attendance (run c w es) = attendance w.
Proof.
  intros Hc. revert w. induction es as [|e es IH]; intros w; [easy|].
  unfold run. cbn [fold_left]. fold (run c (react c w e) es).
  destruct (IH (react c w e)) as [H1 H2]. rewrite H1, H2.
  now apply react_no_reference.
Qed.

End LoopMore.

(** ** The face-encoding store *)

Section Store.
Import FaceApi IndexedDb.

Implicit Types (db : Store) (r : FaceEncoding) (e : string).

Lemma leb_trans (s1 s2 s3 : string) :
  String.leb s1 s2 = true -> String.leb s2 s3 = true ->
  String.leb s1 s3 = true.
Proof.
  revert s2 s3. induction s1 as [|c1 s1 IH]; intros [|c2 s2] [|c3 s3];
    unfold String.leb; simpl; try easy.
  specialize (IH s2 s3). unfold String.leb in IH.
  unfold Ascii.compare.
  destruct (N.compare_spec (Ascii.N_of_ascii c1) (Ascii.N_of_ascii c2));
    destruct (N.compare_spec (Ascii.N_of_ascii c2) (Ascii.N_of_ascii c3));
    destruct (N.compare_spec (Ascii.N_of_ascii c1) (Ascii.N_of_ascii c3));
    try easy; try lia.
Qed.

#[local] Instance keyLe_trans : Transitive keyLe.
Proof. intros a b c. unfold keyLe. apply leb_trans. Qed.

#[local] Instance keyLe_total : Total keyLe.
Proof. intros a b. unfold keyLe. apply String.leb_total. Qed.

Lemma elem_of_getAll db r : r ∈ getAll db <-> exists k, db !! k = Some r.
Proof.
  unfold getAll. rewrite merge_sort_Permutation, list_elem_of_fmap. split.
  - intros ([k r'] & -> & Hin). exists k. now apply elem_of_map_to_list.
  - intros (k & Hk). exists (k, r). split; [reflexivity|].
    now apply elem_of_map_to_list.
Qed.

Lemma elem_of_getAll_wf db r :
  wf db -> (r ∈ getAll db <-> db !! id r = Some r).
Proof.
  intros Hwf. rewrite elem_of_getAll. split.
  - intros (k & Hk). now rewrite (Hwf k r Hk).
  - eauto.
Qed.

Lemma getAll_sorted db : StronglySorted keyLe (getAll db).
Proof. apply StronglySorted_merge_sort; apply _. Qed.

Lemma getAll_NoDup db : wf db -> NoDup (getAll db).
Proof.
  intros Hwf. unfold getAll. rewrite merge_sort_Permutation.
  apply (NoDup_fmap_1 id).
  assert (E : id <$> (map_to_list db).*2 = (map_to_list db).*1).
  { rewrite <- list_fmap_compose. apply list_fmap_ext.
    intros i [k r] Hi. simpl.
    apply list_elem_of_lookup_2, elem_of_map_to_list in Hi. now apply Hwf. }
  rewrite E. apply NoDup_fst_map_to_list.
Qed.

Lemma wf_empty : wf ∅.
Proof. intros k r H. rewrite lookup_empty in H. discriminate. Qed.

Lemma wf_put r db : wf db -> wf (put r db).
Proof.
  intros Hwf k r' H. unfold put in H.
  destruct (decide (id r = k)) as [<-|Hne].
  - rewrite lookup_insert_eq in H. now inversion H.
  - rewrite lookup_insert_ne in H by assumption. now apply Hwf.
Qed.

Lemma StronglySorted_filter_keyLe (P : FaceEncoding -> Prop)
    `{!forall x, Decision (P x)} (l : list FaceEncoding) :
  StronglySorted keyLe l -> StronglySorted keyLe (filter P l).
Proof.
  induction 1 as [|x l Hl IH Hx]; [constructor|].
  rewrite filter_cons. destruct (decide (P x)); [|assumption].
  constructor; [assumption|].
  apply Forall_forall. intros y Hy. apply list_elem_of_filter in Hy as [_ Hy].
  now apply (proj1 (Forall_forall _ _) Hx).
Qed.

(** Two well-formed stores whose records differ by a filter list them
    accordingly. *)
Lemma getAll_filter (P : FaceEncoding -> Prop) `{!forall x, Decision (P x)}
    db db' :
  wf db -> wf db' ->
  (forall r, r ∈ getAll db' <-> r ∈ getAll db /\ P r) ->
  getAll db' = filter P (getAll db).
Proof.
  intros Hwf Hwf' Hiff.
  apply (StronglySorted_unique_strong keyLe).
  - intros x1 x2 H1 H2 H12 H21.
    apply Hiff in H1 as [H1 _]. apply list_elem_of_filter in H2 as [_ H2].
    apply (elem_of_getAll_wf _ _ Hwf) in H1, H2.
    assert (E : id x1 = id x2) by (apply String.leb_antisym; assumption).
    rewrite E in H1. congruence.
  - apply getAll_sorted.
  - apply StronglySorted_filter_keyLe, getAll_sorted.
  - apply NoDup_Permutation.
    + now apply getAll_NoDup.
    + apply NoDup_filter. now apply getAll_NoDup.
    + intros r. rewrite Hiff, list_elem_of_filter. tauto.
Qed.

Lemma fold_delete_lookup (l : list FaceEncoding) db (k : string) :
  fold_left (fun db encoding => delete (id encoding) db) l db !! k
  = if decide (k ∈ id <$> l) then None else db !! k.
Proof.
  revert db. induction l as [|x l IH]; intros db; cbn [fold_left].
  - rewrite fmap_nil, decide_False by apply not_elem_of_nil. reflexivity.
  - rewrite IH, fmap_cons. destruct (decide (k ∈ id <$> l)) as [Hin|Hnin].
    + rewrite decide_True by (now right). reflexivity.
    + destruct (decide (k = id x)) as [->|Hne].
      * rewrite decide_True by (now left). apply lookup_delete_eq.
      * rewrite decide_False by (intros H; apply elem_of_cons in H; tauto).
        now apply lookup_delete_ne.
Qed.

Lemma deleteFaceEncoding_lookup e db (k : string) r :
  wf db ->
  (deleteFaceEncoding e db !! k = Some r
   <-> db !! k = Some r /\ employeeId r <> e).
Proof.
  intros Hwf. unfold deleteFaceEncoding. rewrite fold_delete_lookup.
  destruct (decide (k ∈ id <$> getAllFromIndex e db)) as [Hin|Hnin].
  - split; [discriminate|]. intros [Hk Hne]. exfalso. apply Hne.
    apply list_elem_of_fmap in Hin as (r' & -> & Hr').
    apply list_elem_of_filter in Hr' as [He Hr'].
    apply (elem_of_getAll_wf _ _ Hwf) in Hr'. congruence.
  - split.
    + intros Hk. split; [assumption|]. intros He. apply Hnin.
      apply list_elem_of_fmap. exists r. split; [now rewrite (Hwf k r Hk)|].
      apply list_elem_of_filter. split; [assumption|].
      apply elem_of_getAll. eauto.
    + tauto.
Qed.

Lemma wf_deleteFaceEncoding e db : wf db -> wf (deleteFaceEncoding e db).
Proof.
  intros Hwf k r H. apply (deleteFaceEncoding_lookup e db k r Hwf) in H as [H _].
  now apply Hwf.
Qed.

Lemma getAll_deleteFaceEncoding e db :
  wf db ->
  getAll (deleteFaceEncoding e db)
  = filter (fun r => employeeId r <> e) (getAll db).
Proof.
  intros Hwf. apply getAll_filter; [assumption | now apply wf_deleteFaceEncoding|].
  intros r. rewrite !elem_of_getAll. split.
  - intros (k & Hk). apply (deleteFaceEncoding_lookup e db k r Hwf) in Hk.
    destruct Hk. eauto.
  - intros [(k & Hk) Hne]. exists k.
    now apply (deleteFaceEncoding_lookup e db k r Hwf).
Qed.

End Store.

Section StoreOperations.
Import FaceApi IndexedDb.

Implicit Types (db : Store) (r : FaceEncoding) (e : string).

Lemma wf_twoFaces : wf Samples.twoFaces.
Proof. apply wf_put, wf_put, wf_empty. Qed.

Lemma elem_of_getAll_put r db r' :
  wf db ->
  (r' ∈ getAll (put r db) <-> r' = r \/ (r' ∈ getAll db /\ id r' <> id r)).
Proof.
  intros Hwf. rewrite (elem_of_getAll_wf _ _ (wf_put r db Hwf)).
  rewrite (elem_of_getAll_wf _ _ Hwf). unfold put.
  destruct (decide (id r = id r')) as [E|Hne].
  - rewrite E, lookup_insert_eq. split.
    + intros H. left. now inversion H.
    + intros [-> | [_ H]]; [reflexivity | congruence].
  - rewrite lookup_insert_ne by assumption. split.
    + intros H. right. split; [assumption | congruence].
    + intros [-> | [H _]]; [congruence | assumption].
Qed.

(** X11. [saveFaceEncoding] returns the generated id and files the new
    record under it; every other record stays, except one that already had
    that id; when the id is new the store grows by exactly the new record. *)
Theorem saveFaceEncoding_adds_the_record_and_keeps_the_others
    (uuid : string) (now : Z) e (ds : list Descriptor) db :
  wf db ->
  let r := mkFaceEncoding uuid e ds now in
  let db' := fst (saveFaceEncoding uuid now e ds db) in
  snd (saveFaceEncoding uuid now e ds db) = uuid /\
  wf db' /\
  (forall r', r' ∈ getFaceEncodings db'
              <-> r' = r \/ (r' ∈ getFaceEncodings db /\ id r' <> uuid)) /\
  (db !! uuid = None -> getFaceEncodings db' ≡ₚ r :: getFaceEncodings db).
Proof.
  intros Hwf. cbv zeta. unfold saveFaceEncoding, getFaceEncodings. cbn [fst snd].
  split; [reflexivity|]. split; [now apply wf_put|]. split.
  - intros r'. now apply (elem_of_getAll_put (mkFaceEncoding uuid e ds now)).
  - intros Hfresh. apply NoDup_Permutation.
    + apply getAll_NoDup. now apply wf_put.
    + constructor; [|now apply getAll_NoDup].
      intros Hin. apply (elem_of_getAll_wf _ _ Hwf) in Hin. simpl in Hin.
      congruence.
    + intros r'.
      rewrite (elem_of_getAll_put (mkFaceEncoding uuid e ds now)) by assumption.
      rewrite elem_of_cons. split.
      * intros [-> | [H _]]; auto.
      * intros [-> | H]; [now left|]. right. split; [assumption|].
        intros E. apply (elem_of_getAll_wf _ _ Hwf) in H. simpl in E.
        congruence.
Qed.

Lemma saveFaceEncoding_adds_the_record_and_keeps_the_others_witness :
  (wf Samples.twoFaces /\ Samples.twoFaces !! "k3" = None) /\
  getFaceEncodings (fst (saveFaceEncoding "k3" 7 "E3" [] Samples.twoFaces))
  ≡ₚ mkFaceEncoding "k3" "E3" [] 7 :: getFaceEncodings Samples.twoFaces.
Proof.
  assert (H : Samples.twoFaces !! "k3" = None) by (vm_compute; reflexivity).
  split; [split; [exact wf_twoFaces | exact H]|].
  exact (proj2 (proj2 (proj2
           (saveFaceEncoding_adds_the_record_and_keeps_the_others
              "k3" 7 "E3" [] Samples.twoFaces wf_twoFaces))) H).
Defined.

Lemma leb_refl (s : string) : String.leb s s = true.
Proof. now destruct (String.leb_total s s). Qed.

Lemma getFaceEncodingByEmployee_None e db :
  getFaceEncodingByEmployee e db = None
  <-> forall r, r ∈ getFaceEncodings db -> employeeId r <> e.
Proof.
  unfold getFaceEncodingByEmployee, getAllFromIndex, getFaceEncodings.
  rewrite head_None. split.
  - intros Hnil r Hr He.
    assert (Hin : r ∈ filter (fun r => employeeId r = e) (getAll db))
      by (apply list_elem_of_filter; auto).
    rewrite Hnil in Hin. now apply elem_of_nil in Hin.
  - intros Hall.
    destruct (filter (fun r => employeeId r = e) (getAll db)) as [|r l] eqn:E;
      [reflexivity|].
    assert (Hin : r ∈ filter (fun r => employeeId r = e) (getAll db))
      by (rewrite E; left).
    apply list_elem_of_filter in Hin as [He Hin]. now apply Hall in Hin.
Qed.

(** X12. [getFaceEncodingByEmployee] returns [undefined] exactly when the
    store holds no record of the employee; otherwise it returns a record of
    that employee, the one with the least id among them. *)
Theorem getFaceEncodingByEmployee_first_record_of_the_employee e db :
  (getFaceEncodingByEmployee e db = None
   <-> forall r, r ∈ getFaceEncodings db -> employeeId r <> e) /\
  (forall r, getFaceEncodingByEmployee e db = Some r ->
     r ∈ getFaceEncodings db /\ employeeId r = e /\
     forall r', r' ∈ getFaceEncodings db -> employeeId r' = e ->
                String.leb (id r) (id r') = true).
Proof.
  split; [apply getFaceEncodingByEmployee_None|].
  unfold getFaceEncodingByEmployee, getAllFromIndex, getFaceEncodings.
  - intros r Hr.
    destruct (filter (fun r => employeeId r = e) (getAll db)) as [|r0 l] eqn:E;
      [discriminate|].
    cbn in Hr. inversion Hr; subst r0.
    assert (Hin : r ∈ filter (fun r => employeeId r = e) (getAll db))
      by (rewrite E; left).
    apply list_elem_of_filter in Hin as [He Hin].
    split; [assumption|]. split; [assumption|].
    intros r' Hr' He'.
    assert (Hin' : r' ∈ r :: l)
      by (rewrite <- E; apply list_elem_of_filter; auto).
    pose proof (StronglySorted_filter_keyLe (fun r => employeeId r = e)
                  (getAll db) (getAll_sorted db)) as Hs.
    rewrite E in Hs. apply StronglySorted_inv in Hs as [_ Hs].
    apply elem_of_cons in Hin' as [-> | Hin']; [apply leb_refl|].
    apply (proj1 (Forall_forall _ _) Hs _ Hin').
Qed.

Lemma NoDup_singleton_eq {A : Type} (l : list A) (a : A) :
  NoDup l -> (forall x, x ∈ l <-> x = a) -> l = [a].
Proof.
  intros Hnd Hiff. destruct l as [|x l].
  - assert (H : a ∈ @nil A) by (now apply Hiff). now apply elem_of_nil in H.
  - assert (x = a) by (apply Hiff; left). subst x.
    destruct l as [|y l]; [reflexivity|]. exfalso.
    assert (y = a) by (apply Hiff; right; left). subst y.
    apply NoDup_cons in Hnd as [Hnd _]. apply Hnd. left.
Qed.

(** X13. Round trip: for an employee without face data,
    [saveFaceEncoding] followed by [getFaceEncodingByEmployee] gives back
    the record just written, with the descriptors as they were passed. *)
Theorem saved_encoding_is_read_back
    (uuid : string) (now : Z) e (ds : list Descriptor) db :
  wf db ->
  getFaceEncodingByEmployee e db = None ->
  getFaceEncodingByEmployee e (fst (saveFaceEncoding uuid now e ds db))
  = Some (mkFaceEncoding uuid e ds now).
Proof.
  intros Hwf Hnone.
  unfold getFaceEncodingByEmployee, getAllFromIndex in *.
  unfold saveFaceEncoding. cbn [fst].
  rewrite head_None in Hnone.
  rewrite (NoDup_singleton_eq _ (mkFaceEncoding uuid e ds now));
    [reflexivity | |].
  - apply NoDup_filter, getAll_NoDup. now apply wf_put.
  - intros r. rewrite list_elem_of_filter.
    rewrite (elem_of_getAll_put (mkFaceEncoding uuid e ds now)) by assumption.
    split.
    + intros [He [-> | [Hin _]]]; [reflexivity|]. exfalso.
      assert (H : r ∈ filter (fun r => employeeId r = e) (getAll db))
        by (apply list_elem_of_filter; auto).
      rewrite Hnone in H. now apply elem_of_nil in H.
    + intros ->. split; [reflexivity | now left].
Qed.

Lemma saved_encoding_is_read_back_witness :
  (wf Samples.twoFaces /\
   getFaceEncodingByEmployee "E3" Samples.twoFaces = None) /\
  getFaceEncodingByEmployee "E3"
    (fst (saveFaceEncoding "k0" 7 "E3" [[2%R]] Samples.twoFaces))
  = Some (mkFaceEncoding "k0" "E3" [[2%R]] 7).
Proof.
  assert (H : getFaceEncodingByEmployee "E3" Samples.twoFaces = None)
    by (vm_compute; reflexivity).
  split; [split; [exact wf_twoFaces | exact H]|].
  exact (saved_encoding_is_read_back "k0" 7 "E3" [[2%R]] Samples.twoFaces
           wf_twoFaces H).
Defined.

Lemma getFaceEncodingByEmployee_deleted e db :
  wf db -> getFaceEncodingByEmployee e (deleteFaceEncoding e db) = None.
Proof.
  intros Hwf. unfold getFaceEncodingByEmployee, getAllFromIndex.
  rewrite getAll_deleteFaceEncoding by assumption. apply head_None.
  destruct (filter _ (filter _ _)) as [|r l] eqn:E; [reflexivity|].
  assert (Hin : r ∈ r :: l) by left. rewrite <- E in Hin.
  apply list_elem_of_filter in Hin as [He Hin].
  apply list_elem_of_filter in Hin as [Hne _]. contradiction.
Qed.

Lemma getAllFromIndex_other e e' db :
  wf db -> e' <> e ->
  getAllFromIndex e' (deleteFaceEncoding e db) = getAllFromIndex e' db.
Proof.
  intros Hwf Hne. unfold getAllFromIndex.
  rewrite getAll_deleteFaceEncoding by assumption.
  induction (getAll db) as [|r l IH]; [reflexivity|].
  rewrite !filter_cons. destruct (decide (employeeId r <> e)) as [H1|H1].
  - rewrite filter_cons. destruct (decide (employeeId r = e')); now rewrite IH.
  - rewrite IH. destruct (decide (employeeId r = e')) as [H2|]; [|reflexivity].
    exfalso. apply H1. congruence.
Qed.

(** X14. [deleteFaceEncoding] removes every record of the employee and
    nothing else: the remaining records are the old ones of the other
    employees in the same order, the employee has no face data afterwards,
    and every other employee reads back the record it read before. *)
Theorem deleteFaceEncoding_removes_exactly_that_employee e db :
  wf db ->
  getFaceEncodings (deleteFaceEncoding e db)
    = filter (fun r => employeeId r <> e) (getFaceEncodings db) /\
  getFaceEncodingByEmployee e (deleteFaceEncoding e db) = None /\
  (forall e', e' <> e ->
     getFaceEncodingByEmployee e' (deleteFaceEncoding e db)
     = getFaceEncodingByEmployee e' db) /\
  wf (deleteFaceEncoding e db).
Proof.
  intros Hwf. split; [now apply getAll_deleteFaceEncoding|].
  split; [now apply getFaceEncodingByEmployee_deleted|].
  split; [|now apply wf_deleteFaceEncoding].
  intros e' Hne. unfold getFaceEncodingByEmployee.
  now rewrite getAllFromIndex_other.
Qed.

Lemma deleteFaceEncoding_removes_exactly_that_employee_witness :
  wf Samples.twoFaces /\
  getFaceEncodingByEmployee "E1" (deleteFaceEncoding "E1" Samples.twoFaces)
  = None.
Proof.
  split; [exact wf_twoFaces|].
  exact (proj1 (proj2 (deleteFaceEncoding_removes_exactly_that_employee
                         "E1" Samples.twoFaces wf_twoFaces))).
Defined.

End StoreOperations.

(** ** Loading the page, then running the loop *)

Section StartupFacts.
Import JsNum FaceApi LocalTime LiveAttendance Startup.

Implicit Types (db : IndexedDb.Store) (r : Replies)
               (rows : list Attendance.Row).

Lemma empMap_fold (l : list Employee) (m0 : gmap string Employee)
    (k : string) (e : Employee) :
  fold_left (fun m emp => <[ id emp := emp ]> m) l m0 !! k = Some e ->
  (id e = k /\ In e l) \/ m0 !! k = Some e.
Proof.
  revert m0. induction l as [|x l IH]; intros m0 H; [now right|].
  cbn [fold_left] in H. destruct (IH _ H) as [[Hid Hin] | Hm].
  - left. split; [assumption | now right].
  - destruct (decide (id x = k)) as [<-|Hne].
    + rewrite lookup_insert_eq in Hm. inversion Hm; subst. left.
      split; [reflexivity | now left].
    + rewrite lookup_insert_ne in Hm by assumption. now right.
Qed.

Lemma empMap_keyed (l : list Employee) (k : string) (e : Employee) :
  empMap l !! k = Some e -> id e = k /\ In e l.
Proof.
  intros H. destruct (empMap_fold l ∅ k e H) as [|Hm]; [assumption|].
  rewrite lookup_empty in Hm. discriminate.
Qed.

(** The three pieces of state after [initializeAttendance] on a freshly
    mounted page. *)
Lemma initialized_state db r rows :
  let w0 := initializeAttendance db r (mounted rows) in
  (stateStoredFaces w0
   = if modelsOk r && encodingsOk r
     then map IndexedDb.toStoredFace (IndexedDb.getFaceEncodings db) else []) /\
  (stateEmployees w0
   = if modelsOk r && encodingsOk r
     then match empData r with Some l => empMap l | None => ∅ end else ∅) /\
  (stateMarkedToday w0
   = if modelsOk r && encodingsOk r && attendanceOk r
     then list_to_set (attendanceData (today r) rows) else ∅) /\
  insertCalls w0 = [] /\ attendance w0 = rows /\
  processLock w0 = false /\ timers w0 = 0%nat.
Proof.
  cbv zeta. unfold initializeAttendance.
  destruct (modelsOk r); [|now repeat split].
  destruct (encodingsOk r); [|now repeat split].
  destruct (empData r), (attendanceOk r); now repeat split.
Qed.

Lemma initialized_employees_keyed db r rows (k : string) (e : Employee) :
  stateEmployees (initializeAttendance db r (mounted rows)) !! k = Some e ->
  id e = k /\ exists l, empData r = Some l /\ In e l.
Proof.
  destruct (initialized_state db r rows) as (_ & -> & _).
  destruct (modelsOk r && encodingsOk r);
    [|intros H; rewrite lookup_empty in H; discriminate].
  destruct (empData r) as [l|];
    [|intros H; rewrite lookup_empty in H; discriminate].
  intros H. apply empMap_keyed in H as [Hid Hin]. eauto.
Qed.

(** X15. Every check-in issued by a loop started on the initialised page is
    for an identity that has a record in the face-encoding store and an
    employee of the query result with that id. *)
Theorem check_ins_are_for_enrolled_employees db r rows f w :
  let c := render (initializeAttendance db r (mounted rows)) in
  insertCalls (detectAndMatch c f w) <> insertCalls w ->
  exists row enc l emp,
    insertCalls (detectAndMatch c f w) = insertCalls w ++ [row] /\
    enc ∈ IndexedDb.getFaceEncodings db /\
    IndexedDb.employeeId enc = Attendance.employee_id row /\
    empData r = Some l /\ In emp l /\ id emp = Attendance.employee_id row.
Proof.
  cbv zeta. intros Hne.
  destruct (tick_insert_inv _ f w Hne)
    as (descriptor & m & employee & _ & _ & _ & Hm & _ & He & _ & Hcalls).
  cbn [render storedFaces employees] in Hm, He.
  apply initialized_employees_keyed in He as (Hid & l & Hl & Hin).
  destruct (initialized_state db r rows) as (Hst & _).
  cbv zeta in Hst. rewrite Hst in Hm.
  destruct (modelsOk r && encodingsOk r); [|discriminate].
  rewrite findBestMatch_scan in Hm.
  destruct (scan_result_visited descriptor _ None m Hm)
    as [|(e0 & Hin0 & _)]; [discriminate|].
  apply in_pairs in Hin0 as (s & Hs & Hsid & _).
  apply in_map_iff in Hs as (enc & <- & Henc).
  cbn in Hsid.
  eexists _, enc, l, employee. split; [exact Hcalls|].
  split; [now apply list_elem_of_In|].
  cbn. split; [congruence|]. auto.
Qed.

Lemma check_ins_are_for_enrolled_employees_witness :
  let r := mkReplies true true (Some [Scenario.alice]) 0 true in
  let db := IndexedDb.put (IndexedDb.mkFaceEncoding "k1" "E1" [[0%R]] 0) ∅ in
  let w0 := initializeAttendance db r (mounted []) in
  insertCalls (detectAndMatch (render w0) (Scenario.seen 0) w0)
    <> insertCalls w0 /\
  exists row enc l emp,
    insertCalls (detectAndMatch (render w0) (Scenario.seen 0) w0)
      = insertCalls w0 ++ [row] /\
    enc ∈ IndexedDb.getFaceEncodings db /\
    IndexedDb.employeeId enc = Attendance.employee_id row /\
    empData r = Some l /\ In emp l /\ id emp = Attendance.employee_id row.
Proof.
  cbv zeta.
  set (r := mkReplies true true (Some [Scenario.alice]) 0 true).
  set (db := IndexedDb.put (IndexedDb.mkFaceEncoding "k1" "E1" [[0%R]] 0) ∅).
  assert (H : insertCalls
                (detectAndMatch (render (initializeAttendance db r (mounted [])))
                   (Scenario.seen 0) (initializeAttendance db r (mounted [])))
              <> insertCalls (initializeAttendance db r (mounted []))).
  { destruct (tick_checks_in
                (render (initializeAttendance db r (mounted [])))
                (Scenario.seen 0) (initializeAttendance db r (mounted []))
                [0%R] (mkMatch "E1" (Fin 0)) Scenario.alice)
      as (Hc & _); try reflexivity.
    - discriminate.
    - exact scenario_match.
    - exact lt_zero_threshold.
    - cbn. set_solver.
    - rewrite Hc. apply app_singleton_neq. }
  split; [exact H|].
  exact (check_ins_are_for_enrolled_employees db r [] (Scenario.seen 0) _ H).
Defined.

(** The four awaits of [initializeAttendance], settled one by one with
    the same answers, leave the state that the function leaves when taken
    as one step. *)
Lemma initialise_in_four_steps db r rows :
  AttendancePage.world
    (AttendancePage.runPage (AttendancePage.mountedPage rows)
       [AttendancePage.InitSettles db r; AttendancePage.InitSettles db r;
        AttendancePage.InitSettles db r; AttendancePage.InitSettles db r])
  = initializeAttendance db r (mounted rows).
Proof.
  unfold AttendancePage.runPage, initializeAttendance.
  cbn [fold_left AttendancePage.reactPage].
  unfold AttendancePage.initStep at 4. cbn [AttendancePage.initStage
    AttendancePage.mountedPage].
  destruct (modelsOk r); [|reflexivity]. cbn [negb].
  unfold AttendancePage.initStep at 3. cbn [AttendancePage.initStage
    AttendancePage.withStage].
  destruct (encodingsOk r); [|reflexivity]. cbn [negb].
  unfold AttendancePage.initStep.
  destruct (empData r), (attendanceOk r); reflexivity.
Qed.

(** Between the awaits the page is rendered with what has been set so
    far.  Once the face encodings are there the Start Attendance button
    is enabled, while the attendance query has not answered: the
    [detectAndMatch] of that render has captured an empty [markedToday],
    whoever has checked in today. *)
Lemma start_enabled_before_markedToday_is_loaded db r rows :
  modelsOk r = true -> encodingsOk r = true ->
  IndexedDb.getFaceEncodings db <> [] ->
  let p := AttendancePage.runPage (AttendancePage.mountedPage rows)
             [AttendancePage.InitSettles db r;
              AttendancePage.InitSettles db r] in
  AttendancePage.startShown p = true /\
  markedToday (render (AttendancePage.world p)) = ∅.
Proof.
  intros Hm He Hne. cbv zeta.
  unfold AttendancePage.runPage. cbn [fold_left AttendancePage.reactPage].
  assert (E : AttendancePage.initStep db r (AttendancePage.mountedPage rows)
              = AttendancePage.withStage 1
                  (AttendancePage.setIsModelLoading false
                     (AttendancePage.mountedPage rows))).
  { unfold AttendancePage.initStep.
    cbn [AttendancePage.initStage AttendancePage.mountedPage].
    now rewrite Hm. }
  rewrite E. unfold AttendancePage.initStep.
  cbn [AttendancePage.initStage AttendancePage.withStage]. rewrite He.
  split; [|reflexivity].
  unfold AttendancePage.startShown. cbn.
  rewrite length_map. destruct (IndexedDb.getFaceEncodings db); [easy|].
  reflexivity.
Qed.

(** X16. An employee who already has an attendance row for today is never
    submitted, however often the face is recognised, by a loop whose
    [detectAndMatch] is the one of the render that follows the end of
    [initializeAttendance], all three loads having succeeded.  (A
    [detectAndMatch] of an earlier render, taken between the awaits, is
    not covered: it has captured an empty [markedToday].) *)
Theorem checked_in_before_loading_is_never_submitted db r rows
    (row : Attendance.Row) (es : list Event) :
  modelsOk r = true -> encodingsOk r = true -> attendanceOk r = true ->
  In row rows -> Attendance.date row = today r ->
  let w0 := initializeAttendance db r (mounted rows) in
  Forall (fun call => Attendance.employee_id call
                      <> Attendance.employee_id row)
         (insertCalls (run (render w0) w0 es)).
Proof.
  intros Hm He Ha Hin Hdate. cbv zeta.
  destruct (initialized_state db r rows) as (_ & _ & Hmarked & Hcalls & _).
  cbv zeta in Hmarked, Hcalls.
  destruct (captured_never_inserted
              (render (initializeAttendance db r (mounted rows))) es
              (initializeAttendance db r (mounted rows)))
    as (new & -> & Hall).
  rewrite Hcalls. cbn [app].
  eapply Forall_impl; [exact Hall|]. intros call Hcall Heq. apply Hcall.
  cbn [render markedToday]. rewrite Hmarked, Hm, He, Ha. cbn [andb].
  rewrite Heq. apply elem_of_list_to_set, list_elem_of_In.
  unfold attendanceData. apply in_map. apply list_elem_of_In.
  apply list_elem_of_filter. split; [assumption | now apply list_elem_of_In].
Qed.

Lemma checked_in_before_loading_is_never_submitted_witness :
  let r := mkReplies true true (Some [Scenario.alice]) 0 true in
  let row := Attendance.mkRow "E1" 0 0 (Fin 100) Attendance.present in
  let db := IndexedDb.put (IndexedDb.mkFaceEncoding "k1" "E1" [[0%R]] 0) ∅ in
  let w0 := initializeAttendance db r (mounted [row]) in
  (modelsOk r = true /\ encodingsOk r = true /\ attendanceOk r = true /\
   In row [row] /\ Attendance.date row = today r) /\
  Forall (fun call => Attendance.employee_id call <> "E1")
         (insertCalls (run (render w0) w0 Scenario.twice)).
Proof.
  cbv zeta. split; [repeat split; now left|].
  exact (checked_in_before_loading_is_never_submitted
           (IndexedDb.put (IndexedDb.mkFaceEncoding "k1" "E1" [[0%R]] 0) ∅)
           (mkReplies true true (Some [Scenario.alice]) 0 true)
           [Attendance.mkRow "E1" 0 0 (Fin 100) Attendance.present]
           (Attendance.mkRow "E1" 0 0 (Fin 100) Attendance.present)
           Scenario.twice eq_refl eq_refl eq_refl
           (or_introl eq_refl) eq_refl).
Defined.

(** X17. Once [deleteFaceEncoding] has run for an employee, a page
    initialised from the store never matches that employee: no live
    descriptor makes [findBestMatch] return the identity. *)
Theorem deleted_employee_is_never_matched (e : string) db r rows
    (d : Descriptor) (m : Match) :
  IndexedDb.wf db ->
  findBestMatch d
    (stateStoredFaces
       (initializeAttendance (IndexedDb.deleteFaceEncoding e db) r
                             (mounted rows)))
  = Some m ->
  matchEmployeeId m <> e.
Proof.
  intros Hwf Hm.
  destruct (initialized_state (IndexedDb.deleteFaceEncoding e db) r rows)
    as (Hst & _).
  cbv zeta in Hst. rewrite Hst in Hm.
  destruct (modelsOk r && encodingsOk r); [|discriminate].
  rewrite findBestMatch_scan in Hm.
  destruct (scan_result_visited d _ None m Hm) as [|(e0 & Hin0 & _)];
    [discriminate|].
  apply in_pairs in Hin0 as (s & Hs & Hsid & _).
  apply in_map_iff in Hs as (enc & <- & Henc).
  unfold IndexedDb.getFaceEncodings in Henc.
  rewrite getAll_deleteFaceEncoding in Henc by assumption.
  apply list_elem_of_In, list_elem_of_filter in Henc as [Hne _].
  cbn in Hsid. congruence.
Qed.

Lemma deleted_employee_is_never_matched_witness :
  let r := mkReplies true true (Some [Scenario.alice]) 0 true in
  (IndexedDb.wf Samples.twoFaces /\
   findBestMatch [1%R]
     (stateStoredFaces
        (initializeAttendance
           (IndexedDb.deleteFaceEncoding "E1" Samples.twoFaces) r (mounted [])))
   = Some (mkMatch "E2" (Fin 0))) /\
  matchEmployeeId (mkMatch "E2" (Fin 0)) <> "E1".
Proof.
  cbv zeta.
  assert (H : findBestMatch [1%R]
                (stateStoredFaces
                   (initializeAttendance
                      (IndexedDb.deleteFaceEncoding "E1" Samples.twoFaces)
                      (mkReplies true true (Some [Scenario.alice]) 0 true)
                      (mounted [])))
              = Some (mkMatch "E2" (Fin 0))).
  { assert (E : stateStoredFaces
                  (initializeAttendance
                     (IndexedDb.deleteFaceEncoding "E1" Samples.twoFaces)
                     (mkReplies true true (Some [Scenario.alice]) 0 true)
                     (mounted []))
                = [mkStoredFace "E2" [[1%R]]]) by (vm_compute; reflexivity).
    rewrite E. unfold findBestMatch. cbn [fold_left descriptors employeeId].
    unfold consider. now rewrite euclideanDistance_self. }
  split; [split; [exact wf_twoFaces | exact H]|].
  exact (deleted_employee_is_never_matched "E1" Samples.twoFaces
           (mkReplies true true (Some [Scenario.alice]) 0 true) []
           [1%R] (mkMatch "E2" (Fin 0)) wf_twoFaces H).
Defined.

(** X18. When the models fail to load or the face-encoding store cannot be
    read, [initializeAttendance] reports the error and loads nothing; and a
    loop started on a page that loaded no face encodings or no employees
    (either of those failures, an empty store, a failed employee query)
    never issues an insert. *)
Theorem failed_initialisation_loads_nothing db r rows (es : list Event) :
  let w0 := initializeAttendance db r (mounted rows) in
  (modelsOk r = false \/ encodingsOk r = false ->
   toasts w0 = ["Initialization error"] /\
   stateStoredFaces w0 = [] /\ stateEmployees w0 = ∅ /\
   stateMarkedToday w0 = ∅) /\
  (modelsOk r = false \/ encodingsOk r = false \/ empData r = None
   \/ IndexedDb.getFaceEncodings db = [] ->
   insertCalls (run (render w0) w0 es) = [] /\
   attendance (run (render w0) w0 es) = rows).
Proof.
  cbv zeta. split.
  - intros Hfail.
    assert (E : initializeAttendance db r (mounted rows)
                = toast "Initialization error" (mounted rows)).
    { unfold initializeAttendance. destruct Hfail as [-> | ->];
        [reflexivity | now destruct (modelsOk r)]. }
    rewrite E. repeat split.
  - intros Hnone.
    destruct (initialized_state db r rows)
      as (Hst & Hemp & _ & Hcalls & Hrows & _).
    cbv zeta in Hst, Hemp, Hcalls, Hrows.
    set (w0 := initializeAttendance db r (mounted rows)) in *.
    assert (Hc : storedFaces (render w0) = [] \/ employees (render w0) = ∅).
    { cbn [render storedFaces employees]. rewrite Hst, Hemp.
      destruct (modelsOk r); [|now left].
      destruct (encodingsOk r); [|now left]. cbn [andb].
      destruct Hnone as [H | [H | [-> | ->]]]; try discriminate;
        [now right | now left]. }
    destruct (run_no_reference (render w0) es w0 Hc) as [H1 H2].
    rewrite H1, H2. split; assumption.
Qed.

Lemma failed_initialisation_loads_nothing_witness :
  let r := mkReplies false true (Some [Scenario.alice]) 0 true in
  (modelsOk r = false \/ encodingsOk r = false) /\
  toasts (initializeAttendance Samples.twoFaces r (mounted []))
  = ["Initialization error"].
Proof.
  cbv zeta. split; [left; reflexivity|].
  exact (proj1 (proj1 (failed_initialisation_loads_nothing Samples.twoFaces
                         (mkReplies false true (Some [Scenario.alice]) 0 true)
                         [] [])
                      (or_introl eq_refl))).
Defined.

End StartupFacts.

(** ** More on the enrollment page *)

Section EnrollmentMore.
Import FaceApi FaceRegistration SubmitTrace Capture.

Implicit Types (s : Session) (r : Replies) (p : Page).

(** Every path of [handleSubmit], one goal each. *)
Ltac submit_paths s r :=
  unfold handleSubmit, succeeds, formComplete, toastCount, failed;
  destruct (Nat.ltb_spec (length (capturedDescriptors s)) REQUIRED_CAPTURES);
  destruct (truthy (name (formData s))) eqn:?;
  destruct (truthy (employeeId (formData s))) eqn:?;
  destruct (truthy (department (formData s))) eqn:?;
  destruct (existing r) eqn:?;
  destruct (inserted r) eqn:?;
  destruct (saveFailed r) eqn:?;
  cbn [negb orb andb].

(** Membership in an explicit list, one goal per element. *)
Ltac each_member H :=
  cbn in H;
  repeat match type of H with
         | _ \/ _ => destruct H as [H | H]
         end;
  try contradiction.

Lemma truthy_empty : truthy "" = false.
Proof. reflexivity. Qed.

Lemma leb_quota_true s :
  (REQUIRED_CAPTURES <= length (capturedDescriptors s))%nat ->
  (REQUIRED_CAPTURES <=? length (capturedDescriptors s))%nat = true.
Proof. intros H. now apply Nat.leb_le. Qed.

Lemma leb_quota_false s :
  (length (capturedDescriptors s) < REQUIRED_CAPTURES)%nat ->
  (REQUIRED_CAPTURES <=? length (capturedDescriptors s))%nat = false.
Proof. intros H. now apply Nat.leb_gt. Qed.

(** X19. With the quota reached, a submission whose name, employee id or
    department is empty is rejected with the missing-information message
    before any store is consulted. *)
Theorem submit_with_missing_field_rejected s r :
  (REQUIRED_CAPTURES <= length (capturedDescriptors s))%nat ->
  name (formData s) = "" \/ employeeId (formData s) = ""
  \/ department (formData s) = "" ->
  handleSubmit s r = [PreventDefault; Toast "Missing information"] /\
  forallb (fun e => negb (touchesStore e)) (handleSubmit s r) = true.
Proof.
  intros Hq Hmissing.
  assert (E : handleSubmit s r = [PreventDefault; Toast "Missing information"]).
  { unfold handleSubmit.
    destruct (Nat.ltb_spec (length (capturedDescriptors s)) REQUIRED_CAPTURES);
      [lia|].
    destruct Hmissing as [-> | [-> | ->]]; rewrite truthy_empty; cbn [negb orb];
      rewrite ?orb_true_r; reflexivity. }
  rewrite E. split; reflexivity.
Qed.

Lemma submit_with_missing_field_rejected_witness :
  let s := mkSession [[0%R]; [0%R]; [0%R]; [0%R]; [0%R]]
                     (mkFormData "Alice" "" "IT" "" "") in
  ((REQUIRED_CAPTURES <= length (capturedDescriptors s))%nat /\
   (name (formData s) = "" \/ employeeId (formData s) = ""
    \/ department (formData s) = "")) /\
  handleSubmit s Scenario.allGood
  = [PreventDefault; Toast "Missing information"].
Proof.
  cbv zeta.
  assert (H1 : (REQUIRED_CAPTURES
                <= length (capturedDescriptors
                             (mkSession [[0%R]; [0%R]; [0%R]; [0%R]; [0%R]]
                                        (mkFormData "Alice" "" "IT" "" ""))))%nat)
    by (vm_compute; lia).
  split; [split; [exact H1 | right; left; reflexivity]|].
  exact (proj1 (submit_with_missing_field_rejected
                  (mkSession [[0%R]; [0%R]; [0%R]; [0%R]; [0%R]]
                             (mkFormData "Alice" "" "IT" "" ""))
                  Scenario.allGood H1 (or_intror (or_introl eq_refl)))).
Defined.

Lemma submit_duplicate_trace s r (e : Effect) :
  existing r = true ->
  In e (handleSubmit s r) ->
  match e with
  | InsertEmployee _ _ _ _ _ | SaveFaceEncoding _ _
  | StopCamera | Navigate _ => False
  | _ => True
  end.
Proof.
  intros Hex. submit_paths s r; try discriminate;
    intros Hin; each_member Hin; subst e; exact I.
Qed.

(** X20. When the uniqueness query finds the employee id, [handleSubmit]
    inserts no employee, saves no face encoding, keeps the camera and does
    not leave the page. *)
Theorem submit_duplicate_id_creates_nothing s r :
  existing r = true ->
  (forall n i d em ph, ~ In (InsertEmployee n i d em ph) (handleSubmit s r)) /\
  (forall i ds, ~ In (SaveFaceEncoding i ds) (handleSubmit s r)) /\
  ~ In StopCamera (handleSubmit s r) /\
  (forall path, ~ In (Navigate path) (handleSubmit s r)).
Proof.
  intros Hex. repeat split; repeat intro;
    match goal with
    | H : In _ _ |- _ => exact (submit_duplicate_trace s r _ Hex H)
    end.
Qed.

Lemma submit_duplicate_id_creates_nothing_witness :
  let s := mkSession [[0%R]; [0%R]; [0%R]; [0%R]; [0%R]]
                     (mkFormData "Alice" "A-001" "IT" "" "") in
  existing (mkReplies true (Some "E9") false) = true /\
  ~ In (SaveFaceEncoding "E9" (capturedDescriptors s))
       (handleSubmit s (mkReplies true (Some "E9") false)).
Proof.
  cbv zeta. split; [reflexivity|].
  exact (proj1 (proj2 (submit_duplicate_id_creates_nothing
                         (mkSession [[0%R]; [0%R]; [0%R]; [0%R]; [0%R]]
                                    (mkFormData "Alice" "A-001" "IT" "" ""))
                         (mkReplies true (Some "E9") false) eq_refl))
               "E9" _).
Defined.

(** X21. A face encoding is saved only after the employee insert
    succeeded, under the id that insert returned, with exactly the captured
    descriptors, of which there are at least 5; the form was complete and
    the employee id was not taken. *)
Theorem face_encoding_saved_only_after_insert s r
    (i : string) (ds : list Descriptor) :
  In (SaveFaceEncoding i ds) (handleSubmit s r) ->
  inserted r = Some i /\
  ds = capturedDescriptors s /\
  (REQUIRED_CAPTURES <= length ds)%nat /\
  existing r = false /\
  formComplete (formData s) = true /\
  In (InsertEmployee (name (formData s)) (employeeId (formData s))
                     (department (formData s))
                     (orNull (email (formData s)))
                     (orNull (phone (formData s))))
     (handleSubmit s r).
Proof.
  submit_paths s r;
    intros Hin; each_member Hin; try discriminate Hin;
    inversion Hin; subst; cbn; repeat split; auto.
Qed.

Lemma face_encoding_saved_only_after_insert_witness :
  let s := mkSession [[0%R]; [0%R]; [0%R]; [0%R]; [0%R]]
                     (mkFormData "Alice" "A-001" "IT" "" "") in
  In (SaveFaceEncoding "E1" (capturedDescriptors s))
     (handleSubmit s Scenario.allGood) /\
  inserted Scenario.allGood = Some "E1".
Proof.
  cbv zeta.
  assert (H : In (SaveFaceEncoding "E1"
                    (capturedDescriptors
                       (mkSession [[0%R]; [0%R]; [0%R]; [0%R]; [0%R]]
                                  (mkFormData "Alice" "A-001" "IT" "" ""))))
                 (handleSubmit
                    (mkSession [[0%R]; [0%R]; [0%R]; [0%R]; [0%R]]
                               (mkFormData "Alice" "A-001" "IT" "" ""))
                    Scenario.allGood)).
  { cbn. do 4 right. now left. }
  split; [exact H|].
  exact (proj1 (face_encoding_saved_only_after_insert _ _ _ _ H)).
Defined.

(** X22. Every submission shows exactly one message, and whenever it set
    the processing flag it ends by clearing it. *)
Theorem submit_shows_one_message_and_clears_processing s r :
  toastCount (handleSubmit s r) = 1%nat /\
  (In (SetIsProcessing true) (handleSubmit s r) ->
   last (handleSubmit s r) = Some (SetIsProcessing false)).
Proof. submit_paths s r; cbn; split; try reflexivity; intuition discriminate. Qed.

(** The trace of the path on which everything succeeds. *)
Lemma submit_success s r :
  succeeds s r = true ->
  exists i,
    inserted r = Some i /\
    handleSubmit s r
    = [PreventDefault; SetIsProcessing true;
       SelectEmployee (employeeId (formData s));
       InsertEmployee (name (formData s)) (employeeId (formData s))
                      (department (formData s))
                      (orNull (email (formData s)))
                      (orNull (phone (formData s)));
       SaveFaceEncoding i (capturedDescriptors s);
       Toast "Registration successful!"; StopCamera; Navigate "/employees";
       SetIsProcessing false].
Proof.
  unfold succeeds, formComplete, handleSubmit. intros H.
  repeat (apply andb_prop in H as [H ?]).
  apply Nat.leb_le in H.
  destruct (Nat.ltb_spec (length (capturedDescriptors s)) REQUIRED_CAPTURES);
    [lia|].
  destruct (truthy (name (formData s))); [|discriminate].
  destruct (truthy (employeeId (formData s))); [|discriminate].
  destruct (truthy (department (formData s))); [|discriminate].
  destruct (existing r); [discriminate|].
  destruct (inserted r) as [i|]; [|discriminate].
  destruct (saveFailed r); [discriminate|].
  exists i. split; reflexivity.
Qed.

(** On every other path nothing announces success, releases the camera or
    navigates. *)
Lemma submit_failure s r (e : Effect) :
  succeeds s r = false ->
  In e (handleSubmit s r) ->
  match e with
  | Navigate _ | StopCamera => False
  | Toast t => t <> "Registration successful!"
  | _ => True
  end.
Proof.
  unfold succeeds, formComplete, handleSubmit, failed.
  destruct (Nat.ltb_spec (length (capturedDescriptors s)) REQUIRED_CAPTURES)
    as [Hlt|Hge].
  - intros _ Hin. each_member Hin; subst e; cbn;
      first [exact I | discriminate].
  - rewrite (leb_quota_true s Hge).
    destruct (truthy (name (formData s)));
      destruct (truthy (employeeId (formData s)));
      destruct (truthy (department (formData s)));
      destruct (existing r); destruct (inserted r); destruct (saveFailed r);
      cbn; intros Hs Hin; try discriminate Hs;
      each_member Hin; subst e; cbn; first [exact I | discriminate].
Qed.

(** X23. [handleSubmit] leaves the page for [/employees], releasing the
    camera and announcing success, exactly when the quota is reached, the
    form is complete, the id is free, the insert returned an employee and
    the face encoding was saved. *)
Theorem submit_navigates_iff_everything_succeeded s r :
  (In (Navigate "/employees") (handleSubmit s r) <-> succeeds s r = true) /\
  (In StopCamera (handleSubmit s r) <-> succeeds s r = true) /\
  (In (Toast "Registration successful!") (handleSubmit s r)
   <-> succeeds s r = true) /\
  (forall path, In (Navigate path) (handleSubmit s r) -> path = "/employees").
Proof.
  destruct (succeeds s r) eqn:Hs.
  - destruct (submit_success s r Hs) as (i & _ & ->).
    repeat split; try (intros _; cbn; tauto).
    intros path Hin. each_member Hin; try discriminate Hin.
    now inversion Hin.
  - repeat split; try discriminate.
    + intros Hin. now apply (submit_failure s r _ Hs) in Hin.
    + intros Hin. now apply (submit_failure s r _ Hs) in Hin.
    + intros Hin. now apply (submit_failure s r _ Hs) in Hin.
    + intros path Hin. now apply (submit_failure s r _ Hs) in Hin.
Qed.

(** Clicking Capture with the video mounted, the indicator on and a face
    found appends the descriptors in the order of the clicks. *)
Lemma captureFrame_good (d : Descriptor) p :
  faceDetected p = true ->
  fst (captureFrame (goodShot d) p)
  = mkPage (mkSession (capturedDescriptors (session p) ++ [d])
                      (formData (session p)))
           (capturedImages p ++ [""]) true.
Proof.
  intros Hf. unfold captureFrame, goodShot.
  cbn [videoMounted detection canvasContext imageDataUrl negb orb].
  rewrite Hf. reflexivity.
Qed.

Lemma captureAll_cons (shot : Shot) (shots : list Shot) p :
  captureAll (shot :: shots) p = captureAll shots (fst (captureFrame shot p)).
Proof. reflexivity. Qed.

Lemma captureAll_good (ds : list Descriptor) p :
  faceDetected p = true ->
  capturedDescriptors (session (captureAll (map goodShot ds) p))
    = capturedDescriptors (session p) ++ ds /\
  formData (session (captureAll (map goodShot ds) p)) = formData (session p) /\
  faceDetected (captureAll (map goodShot ds) p) = true.
Proof.
  revert p. induction ds as [|d ds IH]; intros p Hf.
  - cbn. rewrite app_nil_r. auto.
  - cbn [map]. rewrite captureAll_cons, (captureFrame_good d p Hf).
    destruct (IH (mkPage (mkSession (capturedDescriptors (session p) ++ [d])
                                    (formData (session p)))
                         (capturedImages p ++ [""]) true) eq_refl)
      as (E1 & E2 & E3).
    rewrite E1, E2, E3. cbn. rewrite <- app_assoc. auto.
Qed.

(** X24. End to end: after a reset, capturing at least five faces and
    submitting a complete form with an unused id, the stores answering,
    inserts the employee, saves exactly the captured descriptors in capture
    order under the new employee's id, and leaves the page. *)
Theorem capture_then_submit_registers_the_captures
    p (ds : list Descriptor) r (i : string) :
  faceDetected p = true ->
  (REQUIRED_CAPTURES <= length ds)%nat ->
  formComplete (formData (session p)) = true ->
  existing r = false -> inserted r = Some i -> saveFailed r = false ->
  let p' := captureAll (map goodShot ds) (fst (resetCaptures p)) in
  handleSubmit (session p') r
  = [PreventDefault; SetIsProcessing true;
     SelectEmployee (employeeId (formData (session p)));
     InsertEmployee (name (formData (session p)))
                    (employeeId (formData (session p)))
                    (department (formData (session p)))
                    (orNull (email (formData (session p))))
                    (orNull (phone (formData (session p))));
     SaveFaceEncoding i ds;
     Toast "Registration successful!"; StopCamera; Navigate "/employees";
     SetIsProcessing false].
Proof.
  intros Hf Hq Hform Hex Hins Hsave. cbv zeta.
  destruct (captureAll_good ds (fst (resetCaptures p)) Hf) as (E1 & E2 & _).
  unfold handleSubmit. rewrite E1, E2, Hex, Hins, Hsave.
  cbn [resetCaptures fst session capturedDescriptors formData app].
  destruct (Nat.ltb_spec (length ds) REQUIRED_CAPTURES); [lia|].
  unfold formComplete in Hform.
  apply andb_prop in Hform as [Hform H3]. apply andb_prop in Hform as [H1 H2].
  rewrite H1, H2, H3. reflexivity.
Qed.

Lemma capture_then_submit_registers_the_captures_witness :
  let p := mkPage Scenario.fourCaptures [] true in
  let ds := [[1%R]; [2%R]; [3%R]; [4%R]; [5%R]] in
  (faceDetected p = true /\ (REQUIRED_CAPTURES <= length ds)%nat /\
   formComplete (formData (session p)) = true /\
   existing Scenario.allGood = false /\
   inserted Scenario.allGood = Some "E1" /\
   saveFailed Scenario.allGood = false) /\
  In (SaveFaceEncoding "E1" ds)
     (handleSubmit
        (session (captureAll (map goodShot ds) (fst (resetCaptures p))))
        Scenario.allGood).
Proof.
  cbv zeta.
  assert (Hq : (REQUIRED_CAPTURES
                <= length [[1%R]; [2%R]; [3%R]; [4%R]; [5%R]])%nat)
    by (vm_compute; lia).
  split; [repeat split; try reflexivity; exact Hq|].
  rewrite (capture_then_submit_registers_the_captures
             (mkPage Scenario.fourCaptures [] true)
             [[1%R]; [2%R]; [3%R]; [4%R]; [5%R]] Scenario.allGood "E1"
             eq_refl Hq eq_refl eq_refl eq_refl eq_refl).
  cbn. do 4 right. now left.
Defined.

(** One click adds at most one descriptor, after the ones already there. *)
Lemma captureFrame_extends (shot : Shot) p :
  exists added,
    capturedDescriptors (session (fst (captureFrame shot p)))
      = capturedDescriptors (session p) ++ added /\
    (length added <= 1)%nat.
Proof.
  unfold captureFrame.
  destruct (negb (videoMounted shot) || negb (faceDetected p));
    [exists []; cbn; rewrite app_nil_r; split; [reflexivity | lia]|].
  destruct (detection shot) as [d|].
  - exists [d]. cbn. split; [reflexivity | lia].
  - exists []. cbn. rewrite app_nil_r. split; [reflexivity | lia].
Qed.

Lemma captureAll_extends (shots : list Shot) p :
  exists added,
    capturedDescriptors (session (captureAll shots p))
      = capturedDescriptors (session p) ++ added /\
    (length added <= length shots)%nat.
Proof.
  revert p. induction shots as [|shot shots IH]; intros p.
  - exists []. cbn. rewrite app_nil_r. split; [reflexivity | lia].
  - rewrite captureAll_cons.
    destruct (IH (fst (captureFrame shot p))) as (a2 & E2 & L2).
    destruct (captureFrame_extends shot p) as (a1 & E1 & L1).
    exists (a1 ++ a2). rewrite E2, E1, <- app_assoc, length_app. cbn.
    split; [reflexivity | lia].
Qed.

(** X25. Captures only accumulate: whatever the clicks find, the
    descriptors captured before stay in place and at most one is added per
    click; so after a reset, fewer than five clicks can never pass the
    quota test of [handleSubmit]. *)
Theorem captures_accumulate_and_reset_needs_five_clicks
    (shots : list Shot) p r :
  (exists added,
      capturedDescriptors (session (captureAll shots p))
        = capturedDescriptors (session p) ++ added /\
      (length added <= length shots)%nat) /\
  ((length shots < REQUIRED_CAPTURES)%nat ->
   handleSubmit (session (captureAll shots (fst (resetCaptures p)))) r
   = [PreventDefault; Toast "Insufficient captures"]).
Proof.
  split; [apply captureAll_extends|]. intros Hlt.
  destruct (captureAll_extends shots (fst (resetCaptures p)))
    as (added & E & L).
  unfold handleSubmit. rewrite E.
  cbn [resetCaptures fst session capturedDescriptors app].
  destruct (Nat.ltb_spec (length added) REQUIRED_CAPTURES); [reflexivity | lia].
Qed.

End EnrollmentMore.

(** ** The Employees page *)

Section EmployeesFacts.
Import IndexedDb Employees.

Implicit Types (st : State) (r : Replies) (employee : Employee).

(** X26. [handleDelete] removes nothing locally unless the user is an admin
    and the remote delete succeeded: otherwise the face-encoding store and
    the employee list are as before, and a non-admin does not even send the
    delete. *)
Theorem handleDelete_keeps_everything_unless_admin_and_remote_ok
    (isAdmin : bool) employee r st :
  isAdmin = false \/ deleteError r = true ->
  faces (handleDelete isAdmin employee r st) = faces st /\
  employees (handleDelete isAdmin employee r st) = employees st /\
  deleted (handleDelete isAdmin employee r st) = deleted st /\
  (isAdmin = false ->
   deleteCalls (handleDelete isAdmin employee r st) = deleteCalls st /\
   toasts (handleDelete isAdmin employee r st)
   = "Permission denied" :: toasts st).
Proof.
  intros H. unfold handleDelete. destruct isAdmin; cbn [negb].
  - destruct H as [H | ->]; [discriminate|].
    repeat split; discriminate.
  - repeat split.
Qed.

Lemma handleDelete_keeps_everything_unless_admin_and_remote_ok_witness :
  (false = false \/ deleteError (mkReplies false false) = true) /\
  faces (handleDelete false Samples.bob (mkReplies false false)
                      Samples.employeesPage)
  = faces Samples.employeesPage.
Proof.
  split; [left; reflexivity|].
  exact (proj1 (handleDelete_keeps_everything_unless_admin_and_remote_ok
                  false Samples.bob (mkReplies false false)
                  Samples.employeesPage (or_introl eq_refl))).
Defined.

(** X27. A successful [handleDelete] by an admin leaves the employee
    without face data and out of the list, and touches nobody else: every
    other employee reads back the same face encoding and stays in the list,
    in the same order. *)
Theorem handleDelete_removes_employee_and_face_data employee r st :
  deleteError r = false -> faceStoreFails r = false -> wf (faces st) ->
  let st' := handleDelete true employee r st in
  getFaceEncodingByEmployee (id employee) (faces st') = None /\
  (forall e', e' <> id employee ->
     getFaceEncodingByEmployee e' (faces st')
     = getFaceEncodingByEmployee e' (faces st)) /\
  employees st' = filter (fun x => id x <> id employee) (employees st) /\
  (forall x, x ∈ employees st' -> id x <> id employee) /\
  deleted st' = deleted st ++ [id employee] /\
  wf (faces st').
Proof.
  intros Hd Hf Hwf. cbv zeta. unfold handleDelete. rewrite Hd, Hf.
  cbn [negb faces employees deleted].
  split; [now apply getFaceEncodingByEmployee_deleted|].
  split.
  { intros e' Hne. unfold getFaceEncodingByEmployee.
    now rewrite getAllFromIndex_other. }
  split; [reflexivity|]. split.
  { intros x Hx. now apply list_elem_of_filter in Hx as [Hx _]. }
  split; [reflexivity | now apply wf_deleteFaceEncoding].
Qed.

Lemma handleDelete_removes_employee_and_face_data_witness :
  (deleteError (mkReplies false false) = false /\
   faceStoreFails (mkReplies false false) = false /\
   wf (faces Samples.employeesPage)) /\
  getFaceEncodingByEmployee (id Samples.bob)
    (faces (handleDelete true Samples.bob (mkReplies false false)
                         Samples.employeesPage))
  = None.
Proof.
  split; [repeat split; exact wf_twoFaces|].
  exact (proj1 (handleDelete_removes_employee_and_face_data
                  Samples.bob (mkReplies false false) Samples.employeesPage
                  eq_refl eq_refl wf_twoFaces)).
Defined.

(** X28. After [fetchEmployees] the face-data flag of a listed employee is
    set exactly when the face-encoding store holds a record for that
    employee's id; the rows are the fetched ones, in the fetched order. *)
Theorem fetchEmployees_flags_employees_with_face_data
    (l : list Employee) st :
  map id (employees (fetchEmployees (Some l) st)) = map id l /\
  (forall x, In x (employees (fetchEmployees (Some l) st)) ->
     (hasFaceData x = true
      <-> exists enc, enc ∈ getFaceEncodings (faces st) /\
                      employeeId enc = id x)).
Proof.
  cbn [fetchEmployees employees]. split.
  - rewrite map_map. reflexivity.
  - intros x Hx. apply in_map_iff in Hx as (emp & <- & _).
    cbn [withFaceData hasFaceData id]. rewrite bool_decide_eq_true.
    destruct (getFaceEncodingByEmployee (id emp) (faces st)) as [enc|] eqn:E.
    + split; [intros _ | eauto].
      unfold getFaceEncodingByEmployee, getAllFromIndex in E.
      apply head_Some_elem_of, list_elem_of_filter in E as [He Hin].
      exists enc. auto.
    + split; [intros [? H]; discriminate|].
      intros (enc & Hin & He). exfalso.
      exact (proj1 (getFaceEncodingByEmployee_None _ _) E enc Hin He).
Qed.

End EmployeesFacts.

(** ** The Dashboard page *)

Section DashboardFacts.
Import Dashboard.
Local Open Scope Z_scope.

Lemma count_two_statuses (rows : list AttendanceRecord) :
  (length (filter (fun a => status a = "present") rows)
   + length (filter (fun a => status a = "late") rows)
   <= length rows)%nat.
Proof.
  induction rows as [|a rows IH]; [reflexivity|].
  rewrite !filter_cons.
  destruct (decide (status a = "present")) as [E|];
    destruct (decide (status a = "late")) as [E'|]; cbn [length]; try lia.
  rewrite E in E'. discriminate.
Qed.

(** X29. The dashboard figures fit together: present and late together
    never exceed the number of today's rows, absent is never negative, the
    three add up to the employee count whenever present and late do not
    exceed it, and absent is 0 otherwise; at most the first five rows are
    shown as recent. *)
Theorem dashboard_stats_are_consistent (employeeCount : option Z)
    (todayAttendance : option (list AttendanceRecord)) :
  let stats := fst (fetchDashboardData employeeCount todayAttendance) in
  let recent := snd (fetchDashboardData employeeCount todayAttendance) in
  0 <= presentToday stats /\ 0 <= lateToday stats /\ 0 <= absentToday stats /\
  presentToday stats + lateToday stats
    <= Z.of_nat (length (default [] todayAttendance)) /\
  (presentToday stats + lateToday stats <= totalEmployees stats ->
   presentToday stats + lateToday stats + absentToday stats
   = totalEmployees stats) /\
  (totalEmployees stats < presentToday stats + lateToday stats ->
   absentToday stats = 0) /\
  (length recent <= 5)%nat /\
  recent `prefix_of` default [] todayAttendance.
Proof.
  cbv zeta. unfold fetchDashboardData. cbn [fst snd presentToday lateToday
    absentToday totalEmployees].
  assert (Hsum : countStatus "present" todayAttendance
                 + countStatus "late" todayAttendance
                 <= Z.of_nat (length (default [] todayAttendance))).
  { destruct todayAttendance as [rows|]; cbn; [|lia].
    pose proof (count_two_statuses rows). lia. }
  assert (Hp : 0 <= countStatus "present" todayAttendance)
    by (destruct todayAttendance; cbn; lia).
  assert (Hl : 0 <= countStatus "late" todayAttendance)
    by (destruct todayAttendance; cbn; lia).
  repeat split; try lia.
  - rewrite length_take. lia.
  - apply prefix_take.
Qed.

End DashboardFacts.

(** ** Loading the models *)

Section ModelLoaderFacts.
Import ModelLoader.

Lemma loaded_stays_loaded (st : State) (e : Event) :
  modelsLoaded st = true ->
  modelsLoaded (react st e) = true /\ loads (react st e) = loads st.
Proof.
  intros H. destruct e as [|ok]; cbn [react].
  - unfold call. rewrite H. auto.
  - unfold settle. destruct (inFlight st); [auto|].
    cbn. rewrite H. now destruct ok.
Qed.

(** X30. Once a load has completed ([modelsLoaded] is set), every later
    call of [loadFaceApiModels] returns without requesting the models
    again, however later calls and completions interleave. *)
Theorem models_are_not_reloaded_once_loaded (st : State) (es : list Event) :
  modelsLoaded st = true ->
  modelsLoaded (run st es) = true /\ loads (run st es) = loads st.
Proof.
  revert st. induction es as [|e es IH]; intros st H; [auto|].
  unfold run. cbn [fold_left]. fold (run (react st e) es).
  destruct (loaded_stays_loaded st e H) as [H1 H2].
  destruct (IH _ H1) as [H3 H4]. rewrite H3, H4. auto.
Qed.

Lemma models_are_not_reloaded_once_loaded_witness :
  modelsLoaded (run (mkState false 0 0) [Call; Settle true]) = true /\
  loads (run (run (mkState false 0 0) [Call; Settle true])
             [Call; Call; Settle false])
  = loads (run (mkState false 0 0) [Call; Settle true]).
Proof.
  split; [reflexivity|].
  exact (proj2 (models_are_not_reloaded_once_loaded
                  (run (mkState false 0 0) [Call; Settle true])
                  [Call; Call; Settle false] eq_refl)).
Defined.

End ModelLoaderFacts.
